(** * mem0 / embedchain: graph memory and metadata merging

    A shallow embedding of

    - [embedchain/memory/utils.py] ([merge_metadata_dict]), and
    - [mem0/memory/main_graph.py] (class [MemoryGraph]: [add], [_search],
      [search], [_update_relationship]),

    together with the properties the design document states about them.

    Python strings are modelled as [string], Python exceptions as values
    of [exn], dictionaries whose iteration order is observable as ordered
    key/value sequences, and dictionaries used as plain maps as [gmap].

    Two limits of the embedding are kept explicit in the statements.
    [Py.lower] is [str.lower] on ASCII text only, so a property that
    depends on the value of a lower-cased name is stated for ASCII names.
    The code splices labels and relationship types into the Cypher text
    without quoting them; the reference store gives a meaning to such a
    statement only when the spliced text is a plain name
    ([symbolic_name]), and leaves the reply to any other text open. *)

From Stdlib Require Import String Ascii ZArith DecimalString.
From stdpp Require Import gmap strings list fin_maps.

Local Open Scope string_scope.
Local Open Scope list_scope.

(** ** Exceptions and results *)

Inductive exn :=
| ValueError (msg : string)
| KeyError (key : string)
| TypeError (msg : string)
| IndexError (msg : string)
| PyException (msg : string)
| StoreError (msg : string).

Inductive result (A : Type) :=
| Ok (a : A)
| Raise (e : exn).
Arguments Ok {A} a.
Arguments Raise {A} e.

Definition result_map {A B} (f : A → B) (r : result A) : result B :=
  match r with Ok a => Ok (f a) | Raise e => Raise e end.

(** The double-quote character, as it appears inside message templates. *)
Definition dquote : string := String (ascii_of_nat 34) EmptyString.

(** * Metadata dictionaries: embedchain/memory/utils.py *)

Module Metadata.

(** Python values that occur in metadata.  A [dict] keeps its insertion
    order, so it is a sequence of entries; its keys are strings. *)
Inductive pyval :=
| PNone
| PBool (b : bool)
| PInt (z : Z)
| PStr (s : string)
| PList (l : pylist)
| PDict (d : pydict)
with pylist :=
| LNil
| LCons (v : pyval) (rest : pylist)
with pydict :=
| DNil
| DCons (k : string) (v : pyval) (rest : pydict).

Scheme pyval_mut := Induction for pyval Sort Prop
  with pylist_mut := Induction for pylist Sort Prop
  with pydict_mut := Induction for pydict Sort Prop.

(** [type(v)] *)
Inductive pytype := TNoneType | TBool | TInt | TStr | TList | TDict.

Definition type_of (v : pyval) : pytype :=
  match v with
  | PNone => TNoneType
  | PBool _ => TBool
  | PInt _ => TInt
  | PStr _ => TStr
  | PList _ => TList
  | PDict _ => TDict
  end.

#[global] Instance pytype_eq_dec : EqDecision pytype.
Proof. solve_decision. Defined.

(** [d[k]] when [k in d], [None] when [k not in d]. *)
Fixpoint dget (k : string) (d : pydict) : option pyval :=
  match d with
  | DNil => None
  | DCons k' v rest => if decide (k' = k) then Some v else dget k rest
  end.

(** [d[k] = v]: an existing key keeps its position, a new key goes last. *)
Fixpoint dset (k : string) (v : pyval) (d : pydict) : pydict :=
  match d with
  | DNil => DCons k v DNil
  | DCons k' v' rest =>
      if decide (k' = k) then DCons k' v rest else DCons k' v' (dset k v rest)
  end.

Fixpoint dkeys (d : pydict) : list string :=
  match d with
  | DNil => []
  | DCons k _ rest => k :: dkeys rest
  end.

(** [not d] for an [Optional[dict]]: [None] and [{}] are falsy. *)
Definition falsy (d : option pydict) : bool :=
  match d with
  | None | Some DNil => true
  | Some (DCons _ _ _) => false
  end.

(** A value of type [Optional[dict]] seen as a Python value. *)
Definition to_pyval (d : option pydict) : pyval :=
  match d with None => PNone | Some d => PDict d end.

Definition type_mismatch_msg (k : string) : string :=
  "additional_kwargs[" +:+ dquote +:+ k +:+ dquote
  +:+ "] already exists in this message," +:+ " but with a different type.".

Definition unmergeable_msg (k : string) : string :=
  "Additional kwargs key " +:+ k +:+ " already exists in this message.".

(** The body of the loop for one item [(k, v)] of [right], given the current
    content [cur] of [merged] at [k]; [rec] is the recursive call on two
    nested dictionaries.  The result is the new value of [merged[k]]. *)
Definition merge_value (rec : pydict → pydict → result (option pydict))
    (k : string) (cur : option pyval) (v : pyval) : result pyval :=
  match cur with
  | None => Ok v
  | Some mv =>
      if decide (type_of mv = type_of v) then
        match v, mv with
        | PStr s, PStr ms => Ok (PStr (ms +:+ s))
        | PDict dv, PDict dm => result_map to_pyval (rec dm dv)
        | _, _ => Raise (ValueError (unmergeable_msg k))
        end
      else Raise (ValueError (type_mismatch_msg k))
  end.

(** [for k, v in right.items(): ...] on the copy [merged] of [left].  The
    early returns of a nested call are written out at the recursive call. *)
Fixpoint merge_items (merged right : pydict) {struct right} : result pydict :=
  match right with
  | DNil => Ok merged
  | DCons k v rest =>
      match
        merge_value
          (fun dm dv =>
             match dm, dv with
             | DNil, DNil => Ok None
             | DNil, DCons _ _ _ => Ok (Some dv)
             | DCons _ _ _, DNil => Ok (Some dm)
             | DCons _ _ _, DCons _ _ _ => result_map Some (merge_items dm dv)
             end)
          k (dget k merged) v
      with
      | Ok x => merge_items (dset k x merged) rest
      | Raise e => Raise e
      end
  end.

Definition merge_metadata_dict (left right : option pydict)
  : result (option pydict) :=
  if falsy left && falsy right then Ok None
  else if falsy left then Ok right
  else if falsy right then Ok left
  else
    match left, right with
    | Some l, Some r => result_map Some (merge_items l r)
    | _, _ => Ok None
    end.

(** The recursive call [merge_metadata_dict(merged[k], v)] on two
    dictionaries. *)
Definition nested_merge (dm dv : pydict) : result (option pydict) :=
  merge_metadata_dict (Some dm) (Some dv).

(** [o[k]] for an [Optional[dict]]; [None] has no keys. *)
Definition olookup (k : string) (o : option pydict) : option pyval :=
  match o with None => None | Some d => dget k d end.

Definition okeys (o : option pydict) : list string :=
  match o with None => [] | Some d => dkeys d end.

(** [o] is [None] or [{}]. *)
Definition none_or_empty (o : option pydict) : Prop :=
  o = None ∨ o = Some DNil.

(** Sample dictionaries:
    [{"a": "x", "n": {"p": 1}, "only_left": True}] and
    [{"a": "y", "n": {"q": 2}, "only_right": None}]. *)
Definition sample_left : pydict :=
  DCons "a" (PStr "x")
    (DCons "n" (PDict (DCons "p" (PInt 1) DNil))
       (DCons "only_left" (PBool true) DNil)).

Definition sample_right : pydict :=
  DCons "a" (PStr "y")
    (DCons "n" (PDict (DCons "q" (PInt 2) DNil))
       (DCons "only_right" PNone DNil)).

End Metadata.

(** * Python string operations used by the graph memory *)

Module Py.

(** [c.lower()] on an ASCII character: the letters [A] to [Z] (65 to 90)
    move to [a] to [z], every other character stays. *)
Definition lower_ascii (c : ascii) : ascii :=
  let n := nat_of_ascii c in
  if Nat.leb 65 n && Nat.leb n 90 then ascii_of_nat (n + 32) else c.

(** [s.lower()] for ASCII text [s].  On other text [str.lower] follows the
    Unicode case tables, which are not modelled: there [lower] leaves every
    character above 127 as it is, and the statements that depend on the
    value of [lower] are restricted to ASCII text ([is_ascii]). *)
Fixpoint lower (s : string) : string :=
  match s with
  | EmptyString => EmptyString
  | String c s' => String (lower_ascii c) (lower s')
  end.

(** Left-to-right replacement of the non-overlapping occurrences of a
    non-empty [old]; [skip] counts the characters of a matched occurrence
    that are still to be dropped. *)
Fixpoint replace_from (old new : string) (skip : nat) (s : string) : string :=
  match s with
  | EmptyString => EmptyString
  | String c s' =>
      match skip with
      | S n => replace_from old new n s'
      | O =>
          if String.prefix old s
          then new +:+ replace_from old new (String.length old - 1) s'
          else String c (replace_from old new 0 s')
      end
  end.

(** With an empty [old], Python puts [new] before every character and at
    the end. *)
Fixpoint replace_empty (new : string) (s : string) : string :=
  match s with
  | EmptyString => new
  | String c s' => new +:+ String c (replace_empty new s')
  end.

(** [s.replace(old, new)] *)
Definition replace (old new s : string) : string :=
  match old with
  | EmptyString => replace_empty new s
  | String _ _ => replace_from old new 0 s
  end.

(** [s.split(sep)] for a one-character separator. *)
Fixpoint split_char (sep : ascii) (s : string) : list string :=
  match s with
  | EmptyString => [EmptyString]
  | String c s' =>
      if decide (c = sep) then EmptyString :: split_char sep s'
      else
        match split_char sep s' with
        | w :: ws => String c w :: ws
        | [] => [String c EmptyString]
        end
  end.

(** [str(n)] for a non-negative integer. *)
Definition str_of_nat (n : nat) : string :=
  NilEmpty.string_of_uint (Nat.to_uint n).

(** [list(set(l))]: the distinct elements of [l].  Python lists them in an
    order that depends on the hash seed of the run; the embedding fixes
    one order, and the statements about the result speak of membership, or
    of inputs for which every order gives the same list. *)
Definition list_set (l : list string) : list string :=
  elements (list_to_set l : gset string).

End Py.

(** [x.lower().replace(" ", "_")], the normalisation of names and labels. *)
Definition normalize (s : string) : string :=
  Py.replace " " "_" (Py.lower s).

(** Text on which [Py.lower] is [str.lower]: every character is below 128. *)
Fixpoint is_ascii (s : string) : bool :=
  match s with
  | EmptyString => true
  | String c s' => Nat.ltb (nat_of_ascii c) 128 && is_ascii s'
  end.


(** * The graph memory: mem0/memory/main_graph.py *)

Module Graph.

Section MemoryGraph.

(** Floating-point numbers (embedding coordinates, similarity scores, the
    threshold).  Their arithmetic is done by the graph database and by the
    BM25 library, never by the code below, so they stay abstract. *)
Context {F : Type}.

Definition embedding : Type := list F.

(** A value of a result column. *)
Inductive cell :=
| CStr (s : string)
| CNum (x : F)
| CNode (id : nat)
| CRel (id : nat).

(** A result row of [graph.query]: column name to value. *)
Abbreviation row := (gmap string cell).

(** The queries that [MemoryGraph] sends, with their parameters.  Labels and
    relationship types are spliced into the query text by the code; the
    other fields are passed as [params]. *)
Inductive cypher :=
| CheckAndCreate (source target : string)
| DeleteRelationships (source target : string)
| CreateRelationship (relationship source target : string)
| MergeTriple (source_type destination_type relation : string)
    (source_name dest_name : string) (source_embedding dest_embedding : embedding)
| SimilarityQuery (n_embedding : embedding) (threshold : F)
| DetachDeleteAll
| MatchAll.

Record message := { role : string; content : string }.

Inductive tool :=
| SEARCH_TOOL
| ADD_MESSAGE_TOOL
| UPDATE_MEMORY_TOOL_GRAPH
| ADD_MEMORY_TOOL_GRAPH
| NOOP_TOOL.

(** The [arguments] of a tool call, by shape: the node and relation lists
    of the search tool, the entity list of the extraction tool, or a flat
    object of strings. *)
Inductive arguments :=
| SearchArgs (nodes relations : list string)
| EntitiesArgs (entities : list (gmap string string))
| FieldArgs (fields : gmap string string).

Record tool_call := { name : string; args : arguments }.

(** The collaborators of a [MemoryGraph] and the constants it imports from
    [mem0.graphs.utils]. *)
Class Collaborators := {
  Store : Type;
  (** [self.graph.query(cypher, params)]; a failed query leaves the store
      as it was *)
  graph_query : cypher → Store → result (Store * list row);
  (** [self.embedding_model.embed(text)] *)
  embed : string → result embedding;
  (** [self.llm.generate_response(messages, tools)['tool_calls']] *)
  generate_response : list message → list tool → result (list tool_call);
  EXTRACT_ENTITIES_PROMPT : string;
  get_update_memory_messages :
    list row → list (gmap string string) → list message;
  (** [np.argsort(scores)[::-1]] of [BM25Okapi(corpus).get_scores(query)]:
      the document indices by decreasing score *)
  bm25_ranking : list (list cell) → list string → list nat;
}.

Context `{Collaborators}.

(** The fields of [self] that the methods read. *)
Record memory_graph := {
  custom_prompt : option string;
  user_id : option string;
  threshold : F;
}.

(** What a method can change: the graph store and the log (the messages
    logged at level [info]). *)
Record world := { graph : Store; log : list string }.

(** A method body: it runs in a world and ends in a world, with a value or
    an exception. *)
Definition M (A : Type) : Type := world → result A * world.

Definition ret {A} (a : A) : M A := fun w => (Ok a, w).
Definition raise {A} (e : exn) : M A := fun w => (Raise e, w).
Definition bind {A B} (m : M A) (k : A → M B) : M B :=
  fun w => match m w with
           | (Ok a, w') => k a w'
           | (Raise e, w') => (Raise e, w')
           end.
Definition lift {A} (r : result A) : M A := fun w => (r, w).

Notation "x <- m ;; k" := (bind m (fun x => k))
  (at level 100, m at next level, right associativity).

Definition logger_info (msg : string) : M unit :=
  fun w => (Ok tt, {| graph := graph w; log := log w ++ [msg] |}).

Definition query (q : cypher) : M (list row) :=
  fun w => match graph_query q (graph w) with
           | Ok (g, rows) => (Ok rows, {| graph := g; log := log w |})
           | Raise e => (Raise e, w)
           end.

(** [for x in l: body(x)] with an accumulator. *)
Fixpoint for_each {A B} (body : A → B → M B) (l : list A) (acc : B) : M B :=
  match l with
  | [] => ret acc
  | x :: rest => acc' <- body x acc ;; for_each body rest acc'
  end.

(** [d[key]] on a row or on an object of strings. *)
Definition getitem {V} (d : gmap string V) (key : string) : result V :=
  match d !! key with Some v => Ok v | None => Raise (KeyError key) end.

(** [item['arguments'][key]] for a string field. *)
Definition field (a : arguments) (key : string) : result string :=
  match a with
  | FieldArgs f => getitem f key
  | _ => Raise (KeyError key)
  end.

(** [item['arguments']['nodes']], [['relations']], [['entities']] *)
Definition arg_nodes (a : arguments) : result (list string) :=
  match a with SearchArgs n _ => Ok n | _ => Raise (KeyError "nodes") end.
Definition arg_relations (a : arguments) : result (list string) :=
  match a with SearchArgs _ r => Ok r | _ => Raise (KeyError "relations") end.
Definition arg_entities (a : arguments) : result (list (gmap string string)) :=
  match a with EntitiesArgs e => Ok e | _ => Raise (KeyError "entities") end.

(** [f"{x}"] for an optional string. *)
Definition fmt_opt (x : option string) : string :=
  match x with Some s => s | None => "None" end.

(** ** [_update_relationship] *)

Definition update_failed_msg (source target : string) : string :=
  "Failed to update or create relationship between " +:+ source
  +:+ " and " +:+ target.

Definition _update_relationship (source target relationship : string) : M unit :=
  _ <- logger_info ("Updating relationship: " +:+ source +:+ " -"
                    +:+ relationship +:+ "-> " +:+ target) ;;
  let relationship := normalize relationship in
  _ <- query (CheckAndCreate source target) ;;
  _ <- query (DeleteRelationships source target) ;;
  result <- query (CreateRelationship relationship source target) ;;
  match result with
  | [] => raise (PyException (update_failed_msg source target))
  | _ :: _ => ret tt
  end.

(** ** [_search] *)

Definition search_system_prompt (self : memory_graph) : string :=
  "You are a smart assistant who understands the entities, their types, and relations in a given text. If user message contains self reference such as 'I', 'me', 'my' etc. then use "
  +:+ fmt_opt (user_id self) +:+ " as the source node. Extract the entities.".

(** Lines 130-142: the node and relation lists built from the tool calls. *)
Fixpoint collect_search (calls : list tool_call) (node_list relation_list : list string)
  : result (list string * list string) :=
  match calls with
  | [] => Ok (node_list, relation_list)
  | item :: rest =>
      if decide (name item = "search") then
        match arg_nodes (args item) with
        | Raise e => Raise e
        | Ok ns =>
            match arg_relations (args item) with
            | Raise e => Raise e
            | Ok rs => collect_search rest (node_list ++ ns) (relation_list ++ rs)
            end
        end
      else collect_search rest node_list relation_list
  end.

Definition search_lists (calls : list tool_call) : result (list string * list string) :=
  match collect_search calls [] [] with
  | Raise e => Raise e
  | Ok (node_list, relation_list) =>
      let node_list := Py.list_set node_list in
      let relation_list := Py.list_set relation_list in
      Ok (normalize <$> node_list, normalize <$> relation_list)
  end.

Definition _search (self : memory_graph) (query_text : string) : M (list row) :=
  search_results <- lift (generate_response
    [ {| role := "system"; content := search_system_prompt self |};
      {| role := "user"; content := query_text |} ] [SEARCH_TOOL]) ;;
  lists <- lift (search_lists search_results) ;;
  let '(node_list, relation_list) := lists in
  for_each (fun node result_relations =>
      n_embedding <- lift (embed node) ;;
      ans <- query (SimilarityQuery n_embedding (threshold self)) ;;
      ret (result_relations ++ ans))
    node_list [].

(** ** [add] *)

(** Lines 45-54: the system prompt of the extraction call.
    [str.replace] with [self.user_id = None] is a [TypeError]. *)
Definition extraction_prompt (self : memory_graph) : result string :=
  match user_id self with
  | None => Raise (TypeError "replace() argument 2 must be str, not None")
  | Some u =>
      match custom_prompt self with
      | Some (String c cp) =>
          Ok (Py.replace "CUSTOM_PROMPT" ("4. " +:+ String c cp)
                (Py.replace "USER_ID" u EXTRACT_ENTITIES_PROMPT))
      | _ => Ok (Py.replace "USER_ID" u EXTRACT_ENTITIES_PROMPT)
      end
  end.

(** Lines 77-83: the body of the loop over [memory_updates['tool_calls']]. *)
Definition dispatch (item : tool_call) (to_be_added : list arguments)
  : M (list arguments) :=
  if decide (name item = "add_graph_memory") then
    ret (to_be_added ++ [args item])
  else if decide (name item = "update_graph_memory") then
    source <- lift (field (args item) "source") ;;
    destination <- lift (field (args item) "destination") ;;
    relationship <- lift (field (args item) "relationship") ;;
    _ <- _update_relationship source destination relationship ;;
    ret to_be_added
  else if decide (name item = "noop") then
    ret to_be_added
  else
    ret to_be_added.

(** Lines 85-116: the body of the loop over [to_be_added]. *)
Definition insert_triple (item : arguments) : M unit :=
  source <- lift (result_map normalize (field item "source")) ;;
  source_type <- lift (result_map normalize (field item "source_type")) ;;
  relation <- lift (result_map normalize (field item "relationship")) ;;
  destination <- lift (result_map normalize (field item "destination")) ;;
  destination_type <- lift (result_map normalize (field item "destination_type")) ;;
  source_embedding <- lift (embed source) ;;
  dest_embedding <- lift (embed destination) ;;
  _ <- query (MergeTriple source_type destination_type relation
                source destination source_embedding dest_embedding) ;;
  ret tt.

Definition added_msg (n : nat) : string :=
  "Added " +:+ Py.str_of_nat n +:+ " new memories to the graph".

(** [add] has no [return] statement: its value is [None], here [tt]. *)
Definition add (self : memory_graph) (data : string) : M unit :=
  search_output <- _search self data ;;
  system <- lift (extraction_prompt self) ;;
  extracted <- lift (generate_response
    [ {| role := "system"; content := system |};
      {| role := "user"; content := data |} ] [ADD_MESSAGE_TOOL]) ;;
  extracted_entities <- lift (match extracted with
                              | [] => Ok []
                              | first :: _ => arg_entities (args first)
                              end) ;;
  let update_memory_prompt :=
    get_update_memory_messages search_output extracted_entities in
  memory_updates <- lift (generate_response update_memory_prompt
    [UPDATE_MEMORY_TOOL_GRAPH; ADD_MEMORY_TOOL_GRAPH; NOOP_TOOL]) ;;
  to_be_added <- for_each dispatch memory_updates [] ;;
  _ <- for_each (fun item _ => insert_triple item) to_be_added tt ;;
  logger_info (added_msg (length to_be_added)).

(** ** [search] *)

(** A document of the BM25 corpus: [[source, relation, destination]]. *)
Definition document : Type := cell * cell * cell.

Definition doc_tokens (d : document) : list cell := [d.1.1; d.1.2; d.2].

(** [[f(x) for x in l]] when [f] may raise. *)
Fixpoint comprehension {A B} (f : A → result B) (l : list A) : result (list B) :=
  match l with
  | [] => Ok []
  | x :: rest =>
      match f x with
      | Raise e => Raise e
      | Ok y => result_map (cons y) (comprehension f rest)
      end
  end.

Definition row_document (item : row) : result document :=
  match getitem item "source" with
  | Raise e => Raise e
  | Ok s =>
      match getitem item "relation" with
      | Raise e => Raise e
      | Ok r => result_map (fun d => (s, r, d)) (getitem item "destination")
      end
  end.

(** [BM25Okapi(corpus).get_top_n(query, documents, n)] of rank_bm25:
    [[documents[i] for i in np.argsort(scores)[::-1][:n]]]. *)
Definition get_top_n (corpus : list document) (tokenized_query : list string)
    (documents : list document) (n : nat) : result (list document) :=
  let top_n := firstn n (bm25_ranking (doc_tokens <$> corpus) tokenized_query) in
  comprehension (fun i => match documents !! i with
                          | Some d => Ok d
                          | None => Raise (IndexError "list index out of range")
                          end) top_n.

(** [{"source": item[0], "relation": item[1], "destination": item[2]}] *)
Definition result_of_document (item : document) : gmap string cell :=
  {[ "source" := item.1.1; "relation" := item.1.2; "destination" := item.2 ]}.

Definition returned_msg (n : nat) : string :=
  "Returned " +:+ Py.str_of_nat n +:+ " search results".

Definition search (self : memory_graph) (query_text : string)
  : M (list (gmap string cell)) :=
  search_output <- _search self query_text ;;
  match search_output with
  | [] => ret []
  | _ :: _ =>
      search_outputs_sequence <- lift (comprehension row_document search_output) ;;
      let tokenized_query := Py.split_char " " query_text in
      reranked_results <- lift (get_top_n search_outputs_sequence tokenized_query
                                  search_outputs_sequence 5) ;;
      let search_results := result_of_document <$> reranked_results in
      _ <- logger_info (returned_msg (length search_results)) ;;
      ret search_results
  end.

(** ** [delete_all], [get_all] *)

Definition delete_all : M unit :=
  _ <- query DetachDeleteAll ;; ret tt.

Definition retrieved_msg (n : nat) : string :=
  "Retrieved " +:+ Py.str_of_nat n +:+ " relationships".

Definition get_all : M (list (gmap string cell)) :=
  results <- query MatchAll ;;
  final_results <- lift (comprehension (fun r : row =>
      match getitem r "source" with
      | Raise e => Raise e
      | Ok s =>
          match getitem r "relationship" with
          | Raise e => Raise e
          | Ok p =>
              result_map (fun t => ({[ "source" := s; "relationship" := p;
                                       "target" := t ]} : gmap string cell))
                (getitem r "target")
          end
      end) results) ;;
  _ <- logger_info (retrieved_msg (length final_results)) ;;
  ret final_results.

End MemoryGraph.

Abbreviation row F := (gmap string (@cell F)).

End Graph.

(** * A reference model of the graph store

    The property graph behind [Neo4jGraph.query], for the statements that
    [MemoryGraph] sends.  Nodes have an identity, labels, a [name] and an
    optional [embedding]; relationships have an identity, a type and two
    end nodes, and several may join the same pair.  The [created]
    timestamps are left out.  The similarity query only reads; the
    database evaluates it in floating point, so its rows are a parameter.

    [MemoryGraph] splices labels and relationship types into the text of
    two of its statements, unquoted.  When the spliced text is a plain name
    the statement is the one written in the source, and the reference
    store gives its effect.  Any other text makes another statement (a
    quoted name, several labels, further clauses) or none that parses; what
    the database answers then is a parameter too, [spliced], about which
    nothing is assumed. *)

Module Neo4j.

Import Graph.

Section Store.

Context {F : Type}.

Record node := {
  labels : list string;
  node_name : string;
  node_embedding : option (list F);
}.

Record rel := { rid : nat; rsrc : nat; rtype : string; rdst : nat }.

Record pgraph := {
  nodes : gmap nat node;
  rels : list rel;
  next_rid : nat;
}.

Definition empty_graph : pgraph :=
  {| nodes := ∅; rels := []; next_rid := 0 |}.

(** The rows of the similarity query (lines 151-172) on a graph. *)
Variable similar : pgraph → list F → F → list (row F).

Definition is_letter (c : ascii) : bool :=
  let n := nat_of_ascii c in
  (Nat.leb 65 n && Nat.leb n 90) || (Nat.leb 97 n && Nat.leb n 122).

Definition is_digit (c : ascii) : bool :=
  let n := nat_of_ascii c in Nat.leb 48 n && Nat.leb n 57.

Definition is_underscore (c : ascii) : bool :=
  Nat.eqb (nat_of_ascii c) 95.

Fixpoint name_rest (s : string) : bool :=
  match s with
  | EmptyString => true
  | String c s' => (is_letter c || is_digit c || is_underscore c) && name_rest s'
  end.

(** Is [s] a plain name: an ASCII letter or underscore followed by ASCII
    letters, digits and underscores?  Spliced after a colon, such a text is
    read by Cypher as the label or relationship type [s] and as nothing
    else.  This is not a check that the code or the database makes: it
    marks the texts for which the reference store says what the statement
    does. *)
Definition symbolic_name (s : string) : bool :=
  match s with
  | EmptyString => false
  | String c s' => (is_letter c || is_underscore c) && name_rest s'
  end.

(** Are the texts spliced into [q] plain names?  Only the creation of
    [_update_relationship] and the insertion of [add] splice text. *)
Definition plain (q : @cypher F) : bool :=
  match q with
  | CreateRelationship ty _ _ => symbolic_name ty
  | MergeTriple st dt ty _ _ _ _ =>
      symbolic_name st && symbolic_name dt && symbolic_name ty
  | _ => true
  end.

(** The reply of the database to a statement with other spliced text. *)
Variable spliced : @cypher F → pgraph → result (pgraph * list (row F)).

(** The identities of the nodes that a pattern matches. *)
Definition matching (P : node → bool) (g : pgraph) : list nat :=
  (filter (fun p => P p.2 = true) (map_to_list (nodes g))).*1.

Definition has_name (s : string) (n : node) : bool :=
  bool_decide (node_name n = s).

Definition has_label_name (l s : string) (n : node) : bool :=
  bool_decide (l ∈ labels n) && bool_decide (node_name n = s).

(** [(n {name: s})] *)
Definition named (s : string) (g : pgraph) : list nat := matching (has_name s) g.

Definition add_node (n : node) (g : pgraph) : pgraph :=
  {| nodes := <[fresh (dom (nodes g)) := n]> (nodes g);
     rels := rels g; next_rid := next_rid g |}.

(** [MERGE (n {name: s})] *)
Definition merge_bare (s : string) (g : pgraph) : pgraph :=
  match named s g with
  | [] => add_node {| labels := []; node_name := s; node_embedding := None |} g
  | _ :: _ => g
  end.

(** [MERGE (n:l {name: s}) ON CREATE SET n.embedding = e
     ON MATCH SET n.embedding = e] *)
Definition merge_typed (l s : string) (e : list F) (g : pgraph) : pgraph :=
  match matching (has_label_name l s) g with
  | [] => add_node {| labels := [l]; node_name := s; node_embedding := Some e |} g
  | _ :: _ =>
      {| nodes := (fun n => if has_label_name l s n
                            then {| labels := labels n; node_name := node_name n;
                                    node_embedding := Some e |}
                            else n) <$> nodes g;
         rels := rels g; next_rid := next_rid g |}
  end.

(** Is [r] a relationship from a node named [s] to a node named [t]? *)
Definition joins_names (g : pgraph) (s t : string) (r : rel) : bool :=
  match nodes g !! rsrc r, nodes g !! rdst r with
  | Some a, Some b => has_name s a && has_name t b
  | _, _ => false
  end.

(** [MATCH (n1 {name: s})-[r]->(n2 {name: t}) DELETE r] *)
Definition delete_between (s t : string) (g : pgraph) : pgraph :=
  {| nodes := nodes g;
     rels := filter (fun r => joins_names g s t r = false) (rels g);
     next_rid := next_rid g |}.

Definition created_row (a r b : nat) : row F :=
  {[ "n1" := CNode a; "r" := CRel r; "n2" := CNode b ]}.

(** [CREATE (a)-[r:ty]->(b) RETURN a, r, b] for one matched pair. *)
Definition create_rel (ty : string) (acc : pgraph * list (row F)) (p : nat * nat)
  : pgraph * list (row F) :=
  let g := acc.1 in
  ({| nodes := nodes g;
      rels := rels g ++ [ {| rid := next_rid g; rsrc := p.1; rtype := ty; rdst := p.2 |} ];
      next_rid := S (next_rid g) |},
   acc.2 ++ [created_row p.1 (next_rid g) p.2]).

(** [MATCH (n1 {name: s}), (n2 {name: t}) CREATE (n1)-[r:ty]->(n2)
     RETURN n1, r, n2] *)
Definition create_between (ty s t : string) (g : pgraph) : pgraph * list (row F) :=
  fold_left (create_rel ty) (list_prod (named s g) (named t g)) (g, []).

Definition merged_row (a r b : nat) : row F :=
  {[ "n" := CNode a; "rel" := CRel r; "m" := CNode b ]}.

(** [MERGE (a)-[rel:ty]->(b) RETURN a, rel, b] for one matched pair. *)
Definition merge_rel (ty : string) (acc : pgraph * list (row F)) (p : nat * nat)
  : pgraph * list (row F) :=
  let g := acc.1 in
  match filter (fun r => rsrc r = p.1 ∧ rtype r = ty ∧ rdst r = p.2) (rels g) with
  | [] =>
      ({| nodes := nodes g;
          rels := rels g ++ [ {| rid := next_rid g; rsrc := p.1; rtype := ty; rdst := p.2 |} ];
          next_rid := S (next_rid g) |},
       acc.2 ++ [merged_row p.1 (next_rid g) p.2])
  | found => (g, acc.2 ++ ((fun r => merged_row p.1 (rid r) p.2) <$> found))
  end.

(** Lines 97-107. *)
Definition merge_triple (st dt ty s d : string) (se de : list F) (g : pgraph)
  : pgraph * list (row F) :=
  let g := merge_typed dt d de (merge_typed st s se g) in
  fold_left (merge_rel ty)
    (list_prod (matching (has_label_name st s) g) (matching (has_label_name dt d) g))
    (g, []).

Definition all_row (g : pgraph) (r : rel) : list (row F) :=
  match nodes g !! rsrc r, nodes g !! rdst r with
  | Some a, Some b =>
      [ {[ "source" := CStr (node_name a); "relationship" := CStr (rtype r);
           "target" := CStr (node_name b) ]} ]
  | _, _ => []
  end.

(** The effect and the rows of a statement whose spliced texts are plain
    names. *)
Definition statement (q : @cypher F) (g : pgraph) : pgraph * list (row F) :=
  match q with
  | CheckAndCreate s t => (merge_bare t (merge_bare s g), [])
  | DeleteRelationships s t => (delete_between s t g, [])
  | CreateRelationship ty s t => create_between ty s t g
  | MergeTriple st dt ty s d se de => merge_triple st dt ty s d se de g
  | SimilarityQuery e th => (g, similar g e th)
  | DetachDeleteAll => ({| nodes := ∅; rels := []; next_rid := next_rid g |}, [])
  | MatchAll => (g, rels g ≫= all_row g)
  end.

(** [graph.query] on the reference model. *)
Definition run (q : @cypher F) (g : pgraph) : result (pgraph * list (row F)) :=
  if plain q then Ok (statement q g) else spliced q g.

(** The types of the relationships from node [a] to node [b], in creation
    order. *)
Definition types_between (g : pgraph) (a b : nat) : list string :=
  rtype <$> filter (fun r => rsrc r = a ∧ rdst r = b) (rels g).

(** Is [a] the identity of a node named [s]? *)
Definition node_named (g : pgraph) (s : string) (a : nat) : Prop :=
  ∃ n, nodes g !! a = Some n ∧ node_name n = s.

(** A [MemoryGraph] on the reference store. *)
Definition collaborators
    (embed : string → result (list F))
    (generate_response : list message → list tool → result (list tool_call))
    (prompt : string)
    (get_update_memory_messages : list (row F) → list (gmap string string) → list message)
    (bm25_ranking : list (list (@cell F)) → list string → list nat)
  : Collaborators := {|
  Store := pgraph;
  graph_query := run;
  Graph.embed := embed;
  Graph.generate_response := generate_response;
  EXTRACT_ENTITIES_PROMPT := prompt;
  Graph.get_update_memory_messages := get_update_memory_messages;
  Graph.bm25_ranking := bm25_ranking;
|}.

End Store.

End Neo4j.

(** * Concrete collaborators

    Instances of the collaborators on which the methods can be run. *)

Module Scenario.

Import Graph Neo4j.

(** A language model with a script: [search_calls] for the search tool, no
    call for the extraction tool, [updates] for the reconciliation tools. *)
Definition scripted_llm (search_calls updates : list tool_call)
    (messages : list message) (tools : list tool) : result (list tool_call) :=
  match tools with
  | [SEARCH_TOOL] => Ok search_calls
  | [ADD_MESSAGE_TOOL] => Ok []
  | _ => Ok updates
  end.

(** A similarity query that lets every node pass: one row for each
    relationship of the graph. *)
Definition every_rel (g : @pgraph Z) (e : list Z) (th : Z) : list (row Z) :=
  rels g ≫= fun r =>
    match nodes g !! rsrc r, nodes g !! rdst r with
    | Some a, Some b =>
        [ {[ "source" := CStr (node_name a); "source_id" := CNode (rsrc r);
             "relation" := CStr (rtype r); "relation_id" := CRel (rid r);
             "destination" := CStr (node_name b);
             "destination_id" := CNode (rdst r); "similarity" := CNum 1%Z ]} ]
    | _, _ => []
    end.

(** The runs of this file splice plain names only.  To a statement with
    other spliced text the store of the scenarios answers with an error;
    no run below depends on that answer. *)
Definition refused (q : @cypher Z) (g : @pgraph Z)
  : result (@pgraph Z * list (row Z)) :=
  Raise (StoreError "statement outside the reference model").

(** BM25 scores that are all equal, as they are for the question and the
    two documents of the example below (a term found in half of the
    documents has weight 0): [np.argsort] leaves the indices in their order
    and [[::-1]] reverses them. *)
Definition tied (corpus : list (list (@cell Z))) (tokens : list string) : list nat :=
  reverse (seq 0 (length corpus)).

(** The reference store with numbers in [Z], an embedder that returns the
    length of the text, and the ranking of tied BM25 scores. *)
Definition neo4j (search_calls updates : list tool_call) : Collaborators :=
  collaborators every_rel refused
    (fun s => Ok [Z.of_nat (String.length s)])
    (scripted_llm search_calls updates)
    "Extract the entities of USER_ID. CUSTOM_PROMPT"
    (fun _ _ => [])
    tied.

(** A store that accepts every query and returns no row, like a stub of
    the database. *)
Definition stub (updates : list tool_call) : Collaborators := {|
  Store := unit;
  graph_query := fun (_ : @cypher Z) _ => Ok (tt, []);
  embed := fun s => Ok [];
  generate_response := scripted_llm [] updates;
  EXTRACT_ENTITIES_PROMPT := "";
  get_update_memory_messages := fun _ _ => [];
  bm25_ranking := fun corpus _ => [];
|}.

Definition alice : @memory_graph Z :=
  {| custom_prompt := None; user_id := Some "alice"; threshold := 0%Z |}.

Definition start {C : @Collaborators Z} (g : Store) : world :=
  {| graph := g; log := [] |}.

Definition triple (s st r d dt : string) : arguments :=
  FieldArgs {[ "source" := s; "source_type" := st; "relationship" := r;
               "destination" := d; "destination_type" := dt ]}.

Definition update_call (s r d : string) : tool_call :=
  {| name := "update_graph_memory";
     args := FieldArgs {[ "source" := s; "relationship" := r; "destination" := d ]} |}.

Definition add_call (s st r d dt : string) : tool_call :=
  {| name := "add_graph_memory"; args := triple s st r d dt |}.

Definition noop_call : tool_call :=
  {| name := "noop"; args := FieldArgs ∅ |}.

(** A call of a tool that the reconciliation schema does not have. *)
Definition unknown_call : tool_call :=
  {| name := "delete_graph_memory"; args := triple "alice" "person" "likes" "paris" "city" |}.

(** The number of relationships that [after] has more than [before]. *)
Definition inserted_edges (before after : @pgraph Z) : nat :=
  length (rels after) - length (rels before).

(** The worlds after [replace("alice", "paris", "likes")] on an empty
    store and after [replace("alice", "paris", "Dislikes")] on the result. *)
Definition likes_world : @world Z (neo4j [] []) :=
  (_update_relationship (H := neo4j [] []) "alice" "paris" "likes"
     (start (C := neo4j [] []) empty_graph)).2.

Definition dislikes_world : @world Z (neo4j [] []) :=
  (_update_relationship (H := neo4j [] []) "alice" "paris" "Dislikes"
     likes_world).2.

(** A store with [alice -lives_in-> paris] and [bob -lives_in-> paris]. *)
Definition paris_graph : @pgraph Z :=
  (merge_triple "person" "city" "lives_in" "bob" "paris" [3%Z] [5%Z]
     (merge_triple "person" "city" "lives_in" "alice" "paris" [5%Z] [5%Z]
        empty_graph).1).1.

Definition search_call (nodes relations : list string) : tool_call :=
  {| name := "search"; args := SearchArgs nodes relations |}.

(** The same fact stated twice, with different spellings. *)
Definition restated : list tool_call :=
  [ add_call "Alice" "Person" "lives in" "Paris" "City";
    add_call "alice" "person" "lives_in" "paris" "city" ].

(** The world after [add] when the model answers with [restated]. *)
Definition restated_world : @world Z (neo4j [] restated) :=
  (add (H := neo4j [] restated) alice "Alice lives in Paris"
     (start (C := neo4j [] restated) empty_graph)).2.

(** A question about Alice on [paris_graph]. *)
Definition asked : Collaborators :=
  neo4j [search_call ["Alice"] ["lives in"]] [].

Definition question : string := "where does alice live".

Definition found_rows : list (row Z) :=
  match (_search (H := asked) alice question (start (C := asked) paris_graph)).1 with
  | Ok rows => rows
  | Raise _ => []
  end.

Definition found_world : @world Z asked :=
  (_search (H := asked) alice question (start (C := asked) paris_graph)).2.

End Scenario.

(** * Further definitions

    Notions used to state properties of the code beyond those of the design
    document: dictionaries of strings, the characters of a string, and
    invariants of the reference store. *)

Module Flat.
Import Metadata.
(** Are all the values of [d] strings? *)
Fixpoint all_str (d : pydict) : bool :=
  match d with
  | DNil => true
  | DCons _ (PStr _) rest => all_str rest
  | DCons _ _ _ => false
  end.

Definition oall_str (o : option pydict) : bool :=
  match o with None => true | Some d => all_str d end.

(** The value that a merge of string dictionaries holds under a key, from
    the values of the two sides. *)
Definition join_values (x y : option pyval) : option pyval :=
  match x, y with
  | None, _ => y
  | _, None => x
  | Some (PStr s), Some (PStr t) => Some (PStr (s +:+ t))
  | Some _, Some _ => None
  end.
End Flat.

Module Text.
(** [sep.join(l)] *)
Fixpoint join (sep : string) (l : list string) : string :=
  match l with
  | [] => EmptyString
  | [w] => w
  | w :: rest => w +:+ sep +:+ join sep rest
  end.

(** The characters of a string. *)
Fixpoint chars (s : string) : list ascii :=
  match s with
  | EmptyString => []
  | String c s' => c :: chars s'
  end.

(** Is [c] an upper-case ASCII letter? *)
Definition is_upper (c : ascii) : bool :=
  Nat.leb 65 (nat_of_ascii c) && Nat.leb (nat_of_ascii c) 90.
End Text.

Module Invariants.
Import Graph Neo4j.
Section Defs.
Context {F : Type}.

(** [m] keeps the property [I] of the store, whatever its outcome. *)
Definition keeps `{Collaborators (F := F)} {A} (I : Store → Prop) (m : M A) : Prop :=
  ∀ w, I (graph w) → I (graph (m w).2).

(** The key of a relationship: its end nodes and its type. *)
Definition rel_key (r : rel) : nat * string * nat := (rsrc r, rtype r, rdst r).

(** No two relationships of one type have the same end nodes. *)
Definition simple (g : @pgraph F) : Prop := NoDup (rel_key <$> rels g).

(** The store has a relationship of type [ty] from a node named [s] to a
    node named [d]. *)
Definition holds (g : @pgraph F) (s ty d : string) : Prop :=
  ∃ r a b, r ∈ rels g ∧ nodes g !! rsrc r = Some a ∧ nodes g !! rdst r = Some b
           ∧ node_name a = s ∧ rtype r = ty ∧ node_name b = d.

(** Every node of [g0] is a node of [g], with its labels and its name. *)
Definition extends (g0 g : @pgraph F) : Prop :=
  ∀ id n, nodes g0 !! id = Some n →
    ∃ n', nodes g !! id = Some n' ∧ labels n' = labels n
          ∧ node_name n' = node_name n.


(** At most one node has a given label and name. *)
Definition typed_unique (g : @pgraph F) : Prop :=
  ∀ l s a b, a ∈ matching (has_label_name l s) g →
    b ∈ matching (has_label_name l s) g → a = b.

(** The entry of [get_all] for a triple. *)
Definition triple_entry (s ty d : string) : gmap string (@cell F) :=
  {[ "source" := CStr s; "relationship" := CStr ty; "target" := CStr d ]}.

(** The field [key] of a tool call, if it has one, normalises to a plain
    name. *)
Definition plain_field (a : arguments) (key : string) : bool :=
  match field a key with
  | Ok v => symbolic_name (normalize v)
  | Raise _ => true
  end.

(** The texts that [add] would splice for the arguments [a] of a tool call
    are plain names: the two types and the relationship, as far as [a] has
    them. *)
Definition plain_args (a : arguments) : bool :=
  plain_field a "source_type" && plain_field a "destination_type"
  && plain_field a "relationship".

Definition plain_call (c : tool_call) : bool := plain_args (args c).

(** The model answers the reconciliation request with plain calls only. *)
Definition plain_answers
    (llm : list message → list tool → result (list tool_call)) : Prop :=
  ∀ messages calls,
    llm messages [UPDATE_MEMORY_TOOL_GRAPH; ADD_MEMORY_TOOL_GRAPH; NOOP_TOOL]
    = Ok calls →
    Forall (fun c => plain_call c = true) calls.

End Defs.
End Invariants.

(** ** Further concrete inputs *)

Module Cases.
Import Metadata Graph Neo4j Scenario.

(** [{"k": {}}] *)
Definition empty_under_k : pydict := DCons "k" (PDict DNil) DNil.

(** Three dictionaries of strings. *)
Definition notes_a : pydict := DCons "topic" (PStr "graphs") (DCons "lang" (PStr "en") DNil).
Definition notes_b : pydict := DCons "lang" (PStr "-GB") (DCons "tag" (PStr "x") DNil).
Definition notes_c : pydict := DCons "tag" (PStr "y") (DCons "topic" (PStr "!") DNil).

(** A memory whose [user_id] was never set. *)
Definition nobody : @memory_graph Z :=
  {| custom_prompt := None; user_id := None; threshold := 0%Z |}.

(** The world in which alice's relationship to paris is replaced, and the
    one after the replacement. *)
Definition paris_world : @world Z (neo4j [] []) :=
  start (C := neo4j [] []) paris_graph.

Definition visited_world : @world Z (neo4j [] []) :=
  (_update_relationship (H := neo4j [] []) "alice" "paris" "Visited" paris_world).2.

(** [paris_graph] when the model answers the update request with
    [restated]. *)
Definition restating_world : @world Z (neo4j [] restated) :=
  start (C := neo4j [] restated) paris_graph.

(** The reference store behind a connection that is lost when a creation
    is sent. *)
Definition dropping : @Collaborators Z := {|
  Store := @pgraph Z;
  graph_query := fun q g =>
    match q with
    | CreateRelationship _ _ _ => Raise (StoreError "ServiceUnavailable")
    | _ => run every_rel refused q g
    end;
  embed := fun s => Ok [Z.of_nat (String.length s)];
  generate_response := scripted_llm [] [];
  EXTRACT_ENTITIES_PROMPT := "";
  get_update_memory_messages := fun _ _ => [];
  bm25_ranking := tied;
|}.

End Cases.

(* ================================================================== *)
(** * Properties *)
(* ================================================================== *)

(** ** Metadata merging *)

Section MetadataFacts.

Import Metadata.

Lemma dget_dset_eq k v d : dget k (dset k v d) = Some v.
Proof.
  induction d as [|k' v' rest IH]; simpl.
  - by rewrite decide_True.
  - destruct (decide (k' = k)) as [->|Hne]; simpl.
    + by rewrite decide_True.
    + by rewrite decide_False.
Qed.

Lemma dget_dset_ne k k' v d : k ≠ k' → dget k' (dset k v d) = dget k' d.
Proof.
  intros Hne. induction d as [|k0 v0 rest IH]; simpl.
  - by rewrite decide_False.
  - destruct (decide (k0 = k)) as [->|Hk]; simpl.
    + by rewrite !decide_False.
    + destruct (decide (k0 = k')); [done | exact IH].
Qed.

Lemma dget_None_keys k d : k ∉ dkeys d → dget k d = None.
Proof.
  induction d as [|k0 v0 rest IH]; simpl; [done|].
  intros Hk. apply not_elem_of_cons in Hk as [Hne Hk].
  rewrite decide_False; [by apply IH | congruence].
Qed.

(** One iteration of the loop of [merge_metadata_dict]. *)
Lemma merge_items_step merged k v rest :
  merge_items merged (DCons k v rest) =
  match merge_value nested_merge k (dget k merged) v with
  | Ok x => merge_items (dset k x merged) rest
  | Raise e => Raise e
  end.
Proof.
  simpl. unfold merge_value, nested_merge, merge_metadata_dict.
  destruct (dget k merged) as [mv|]; [|done].
  destruct (decide (type_of mv = type_of v)); [|done].
  destruct v; try done. destruct mv; try done.
  destruct d0, d; done.
Qed.

Lemma merge_items_lookup right : ∀ merged m,
  NoDup (dkeys right) →
  merge_items merged right = Ok m →
  ∀ k, match dget k right with
       | None => dget k m = dget k merged
       | Some v => ∃ x, merge_value nested_merge k (dget k merged) v = Ok x
                        ∧ dget k m = Some x
       end.
Proof.
  induction right as [|k0 v0 rest IH]; intros merged m Hnd Hm k.
  - simpl in *. congruence.
  - rewrite merge_items_step in Hm.
    simpl in Hnd. apply NoDup_cons in Hnd as [Hk0 Hnd].
    destruct (merge_value nested_merge k0 (dget k0 merged) v0) as [x|e] eqn:Hx;
      [|discriminate].
    specialize (IH _ _ Hnd Hm). simpl.
    destruct (decide (k0 = k)) as [->|Hne].
    + exists x. split; [done|].
      specialize (IH k). rewrite (dget_None_keys _ _ Hk0) in IH.
      by rewrite IH, dget_dset_eq.
    + specialize (IH k). rewrite dget_dset_ne in IH by done. exact IH.
Qed.

Lemma merge_items_raise right : ∀ merged e,
  NoDup (dkeys right) →
  merge_items merged right = Raise e →
  ∃ k v, dget k right = Some v
         ∧ merge_value nested_merge k (dget k merged) v = Raise e.
Proof.
  induction right as [|k0 v0 rest IH]; intros merged e Hnd Hm.
  - discriminate.
  - rewrite merge_items_step in Hm.
    simpl in Hnd. apply NoDup_cons in Hnd as [Hk0 Hnd].
    destruct (merge_value nested_merge k0 (dget k0 merged) v0) as [x|e'] eqn:Hx.
    + destruct (IH _ _ Hnd Hm) as (k & v & Hk & Hv).
      assert (k0 ≠ k) as Hne.
      { intros ->. by rewrite (dget_None_keys _ _ Hk0) in Hk. }
      exists k, v. simpl. rewrite decide_False by done.
      rewrite dget_dset_ne in Hv by done. done.
    + inversion Hm; subst. exists k0, v0. simpl. by rewrite decide_True.
Qed.

Lemma merge_items_conflict right : ∀ merged k v e,
  NoDup (dkeys right) →
  dget k right = Some v →
  merge_value nested_merge k (dget k merged) v = Raise e →
  ∃ e', merge_items merged right = Raise e'.
Proof.
  induction right as [|k0 v0 rest IH]; intros merged k v e Hnd Hk Hv.
  - discriminate.
  - rewrite merge_items_step.
    simpl in Hnd. apply NoDup_cons in Hnd as [Hk0 Hnd].
    destruct (merge_value nested_merge k0 (dget k0 merged) v0) as [x|e'] eqn:Hx;
      [|by eexists].
    simpl in Hk. destruct (decide (k0 = k)) as [->|Hne].
    + inversion Hk; subst. congruence.
    + apply (IH _ k v e Hnd Hk). by rewrite dget_dset_ne.
Qed.

Lemma nested_merge_raise dm dv e :
  nested_merge dm dv = Raise e → merge_items dm dv = Raise e.
Proof.
  unfold nested_merge, merge_metadata_dict.
  destruct dm as [|k1 v1 r1], dv as [|k2 v2 r2]; cbn [falsy andb];
    try discriminate.
  generalize (merge_items (DCons k1 v1 r1) (DCons k2 v2 r2)).
  intros [m|e']; simpl; congruence.
Qed.

(** Every failure of the loop, at any depth, is a [ValueError]. *)
Lemma merge_items_ValueError right : ∀ merged e,
  merge_items merged right = Raise e → ∃ msg, e = ValueError msg.
Proof.
  induction right as [| | | | | d IHd | | | | k v IHv rest IHrest]
    using pydict_mut
    with (P := fun v => ∀ d, v = PDict d → ∀ merged e,
                 merge_items merged d = Raise e → ∃ msg, e = ValueError msg)
         (P0 := fun _ => True);
    try done.
  - intros d' [= <-]. exact IHd.
  - intros merged e. rewrite merge_items_step.
    destruct (merge_value nested_merge k (dget k merged) v) as [x|e'] eqn:Hx.
    { apply IHrest. }
    intros [= <-]. unfold merge_value in Hx.
    destruct (dget k merged) as [mv|]; [|done].
    destruct (decide (type_of mv = type_of v)); [|inversion Hx; by eexists].
    destruct v; try (inversion Hx; by eexists);
      destruct mv; try (inversion Hx; by eexists).
    destruct (nested_merge d0 d) as [|e''] eqn:Hn; [discriminate|].
    inversion Hx; subst. apply nested_merge_raise in Hn.
    eapply IHv; [reflexivity | exact Hn].
Qed.

Lemma falsy_olookup k o : falsy o = true → olookup k o = None.
Proof. by destruct o as [[|]|]. Qed.

Lemma merge_lookup left right m :
  NoDup (okeys right) →
  merge_metadata_dict left right = Ok m →
  ∀ k, match olookup k right with
       | None => olookup k m = olookup k left
       | Some v => ∃ x, merge_value nested_merge k (olookup k left) v = Ok x
                        ∧ olookup k m = Some x
       end.
Proof.
  intros Hnd Hm k. unfold merge_metadata_dict in Hm.
  destruct (falsy left) eqn:Hl, (falsy right) eqn:Hr; simpl in Hm.
  - inversion Hm; subst.
    rewrite (falsy_olookup _ _ Hr). by rewrite (falsy_olookup _ _ Hl).
  - inversion Hm; subst. rewrite (falsy_olookup _ _ Hl).
    destruct (olookup k m) as [v|]; [|done]. by exists v.
  - inversion Hm; subst. by rewrite (falsy_olookup _ _ Hr).
  - destruct left as [l|]; [|done]. destruct right as [r|]; [|done].
    destruct (merge_items l r) as [d|] eqn:Hd; [|done].
    inversion Hm; subst. simpl.
    exact (merge_items_lookup r l d Hnd Hd k).
Qed.

Lemma merge_raise left right e :
  NoDup (okeys right) →
  merge_metadata_dict left right = Raise e →
  ∃ k v, olookup k right = Some v
         ∧ merge_value nested_merge k (olookup k left) v = Raise e.
Proof.
  intros Hnd Hm. unfold merge_metadata_dict in Hm.
  destruct (falsy left) eqn:Hl, (falsy right) eqn:Hr; simpl in Hm; try done.
  destruct left as [l|]; [|done]. destruct right as [r|]; [|done].
  destruct (merge_items l r) as [d|e'] eqn:Hd; [done|].
  inversion Hm; subst. exact (merge_items_raise r l e Hnd Hd).
Qed.

Lemma merge_conflict left right k v e :
  NoDup (okeys right) →
  olookup k right = Some v →
  merge_value nested_merge k (olookup k left) v = Raise e →
  ∃ e', merge_metadata_dict left right = Raise e'.
Proof.
  intros Hnd Hk Hv. unfold merge_metadata_dict.
  destruct (falsy left) eqn:Hl.
  { by rewrite (falsy_olookup _ _ Hl) in Hv. }
  destruct (falsy right) eqn:Hr.
  { by rewrite (falsy_olookup _ _ Hr) in Hk. }
  simpl. destruct left as [l|]; [|done]. destruct right as [r|]; [|done].
  destruct (merge_items_conflict r l k v e Hnd Hk Hv) as [e' He'].
  exists e'. simpl in *. by rewrite He'.
Qed.

Lemma merge_metadata_dict_ValueError left right e :
  merge_metadata_dict left right = Raise e → ∃ msg, e = ValueError msg.
Proof.
  unfold merge_metadata_dict.
  destruct (falsy left), (falsy right); simpl; try discriminate.
  destruct left as [l|]; [|discriminate]. destruct right as [r|]; [|discriminate].
  destruct (merge_items l r) as [m|e'] eqn:Hm; simpl; [discriminate|].
  intros [= <-]. exact (merge_items_ValueError r l e' Hm).
Qed.

(** C4.  Merging two metadata dictionaries.  When the merge succeeds, a key
    that only one side has keeps its value, a key with a string on both
    sides holds their concatenation (left then right), and a key with a
    dictionary on both sides holds the merge of the two by the same
    function.  A key present on both sides with values of different types
    makes the merge fail with a [ValueError], and so does a key with two
    values of one type that is neither [str] nor [dict].  When the merge
    fails, the error is the type-mismatch [ValueError] of such a key, the
    unmergeable [ValueError] of such a key, or the error of the merge of
    two nested dictionaries. *)
Theorem merge_metadata_dict_rule (left right : option pydict) :
  NoDup (okeys right) →
  (∀ m, merge_metadata_dict left right = Ok m →
     ∀ k,
       (olookup k right = None → olookup k m = olookup k left)
       ∧ (olookup k left = None → olookup k m = olookup k right)
       ∧ (∀ a b, olookup k left = Some (PStr a) → olookup k right = Some (PStr b) →
            olookup k m = Some (PStr (a +:+ b)))
       ∧ (∀ a b, olookup k left = Some (PDict a) → olookup k right = Some (PDict b) →
            ∃ x, merge_metadata_dict (Some a) (Some b) = Ok x
                 ∧ olookup k m = Some (to_pyval x)))
  ∧ (∀ k a b, olookup k left = Some a → olookup k right = Some b →
       type_of a ≠ type_of b →
       ∃ msg, merge_metadata_dict left right = Raise (ValueError msg))
  ∧ (∀ k a b, olookup k left = Some a → olookup k right = Some b →
       type_of a = type_of b → type_of b ≠ TStr → type_of b ≠ TDict →
       ∃ msg, merge_metadata_dict left right = Raise (ValueError msg))
  ∧ (∀ e, merge_metadata_dict left right = Raise e →
       ∃ k a b, olookup k left = Some a ∧ olookup k right = Some b
         ∧ ((type_of a ≠ type_of b ∧ e = ValueError (type_mismatch_msg k))
            ∨ (type_of a = type_of b ∧ type_of b ≠ TStr ∧ type_of b ≠ TDict
               ∧ e = ValueError (unmergeable_msg k))
            ∨ (∃ da db, a = PDict da ∧ b = PDict db
                 ∧ merge_metadata_dict (Some da) (Some db) = Raise e))).
Proof.
  intros Hnd. split; [|split; [|split]].
  - intros m Hm k. pose proof (merge_lookup _ _ _ Hnd Hm k) as Hk.
    split; [|split; [|split]].
    + intros Hr. by rewrite Hr in Hk.
    + intros Hl. rewrite Hl in Hk.
      destruct (olookup k right) as [v|]; [|congruence].
      destruct Hk as (x & Hx & Hk). simpl in Hx. congruence.
    + intros a b Hl Hr. rewrite Hr, Hl in Hk.
      destruct Hk as (x & Hx & Hk). simpl in Hx. congruence.
    + intros a b Hl Hr. rewrite Hr, Hl in Hk.
      destruct Hk as (x & Hx & Hk). simpl in Hx. unfold nested_merge in Hx.
      destruct (merge_metadata_dict (Some a) (Some b)) as [y|]; [|done].
      exists y. split; [done|]. simpl in Hx. congruence.
  - intros k a b Hl Hr Hty.
    destruct (merge_conflict left right k b (ValueError (type_mismatch_msg k))
                Hnd Hr) as [e He].
    { rewrite Hl. simpl. by rewrite decide_False. }
    destruct (merge_metadata_dict_ValueError _ _ _ He) as [msg ->]. by exists msg.
  - intros k a b Hl Hr Hty Hs Hd.
    destruct (merge_conflict left right k b (ValueError (unmergeable_msg k))
                Hnd Hr) as [e He].
    { rewrite Hl. simpl. rewrite decide_True by done.
      destruct b; try done; destruct a; done. }
    destruct (merge_metadata_dict_ValueError _ _ _ He) as [msg ->]. by exists msg.
  - intros e He. destruct (merge_raise _ _ _ Hnd He) as (k & v & Hk & Hv).
    destruct (olookup k left) as [a|] eqn:Hl; [|done].
    exists k, a, v. split; [done|]. split; [done|]. simpl in Hv.
    destruct (decide (type_of a = type_of v)) as [Hty|Hty].
    + destruct v; destruct a; try discriminate Hty; try discriminate Hv;
        try (right; left; split; [done|]; split; [done|]; split; [done|]; congruence).
      right; right. exists d0, d. split; [done|]. split; [done|].
      unfold nested_merge in Hv.
      destruct (merge_metadata_dict (Some d0) (Some d)); [done|].
      simpl in Hv. congruence.
    + left. split; [done|congruence].
Qed.

(** The rule on the two sample dictionaries. *)
Lemma merge_metadata_dict_rule_witness :
  NoDup (okeys (Some sample_right))
  ∧ (∀ m, merge_metadata_dict (Some sample_left) (Some sample_right) = Ok m →
       olookup "a" m = Some (PStr "xy")
       ∧ olookup "only_left" m = Some (PBool true)
       ∧ olookup "only_right" m = Some PNone).
Proof.
  assert (NoDup (okeys (Some sample_right))) as Hnd.
  { apply (bool_decide_unpack _). vm_compute. exact I. }
  split; [exact Hnd|]. intros m Hm.
  destruct (merge_metadata_dict_rule (Some sample_left) (Some sample_right) Hnd)
    as [Hok _].
  split; [|split].
  - destruct (Hok m Hm "a") as (_ & _ & Hs & _). exact (Hs "x" "y" eq_refl eq_refl).
  - destruct (Hok m Hm "only_left") as (Hl & _). by rewrite Hl.
  - destruct (Hok m Hm "only_right") as (_ & Hr & _). by rewrite Hr.
Defined.

(** The three merges of the design document's test list. *)
Example merge_metadata_dict_samples :
  merge_metadata_dict (Some (DCons "a" (PStr "x") DNil)) (Some (DCons "a" (PStr "y") DNil))
  = Ok (Some (DCons "a" (PStr "xy") DNil))
  ∧ merge_metadata_dict (Some (DCons "a" (PInt 1) DNil)) (Some (DCons "a" (PStr "y") DNil))
    = Raise (ValueError (type_mismatch_msg "a"))
  ∧ merge_metadata_dict (Some (DCons "a" (PDict (DCons "n" (PInt 1) DNil)) DNil))
      (Some (DCons "a" (PDict (DCons "m" (PInt 2) DNil)) DNil))
    = Ok (Some (DCons "a" (PDict (DCons "n" (PInt 1) (DCons "m" (PInt 2) DNil))) DNil)).
Proof. repeat split. Qed.

Lemma none_or_empty_falsy o : none_or_empty o ↔ falsy o = true.
Proof.
  split.
  - by intros [-> | ->].
  - destruct o as [[|]|]; [by right | done | by left].
Qed.

(** C10.  When both arguments are [None] or empty the result is [None];
    when exactly one of them is, the other one is returned as it is. *)
Theorem merge_metadata_dict_empty (left right : option pydict) :
  (none_or_empty left → none_or_empty right →
     merge_metadata_dict left right = Ok None)
  ∧ (none_or_empty left → ¬ none_or_empty right →
     merge_metadata_dict left right = Ok right)
  ∧ (¬ none_or_empty left → none_or_empty right →
     merge_metadata_dict left right = Ok left).
Proof.
  rewrite !none_or_empty_falsy. unfold merge_metadata_dict.
  destruct (falsy left), (falsy right); simpl; repeat split; intros; congruence.
Qed.

(** The three early returns on [None], [{}] and the samples. *)
Lemma merge_metadata_dict_empty_witness :
  merge_metadata_dict None (Some DNil) = Ok None
  ∧ merge_metadata_dict (Some DNil) (Some sample_right) = Ok (Some sample_right)
  ∧ merge_metadata_dict (Some sample_left) None = Ok (Some sample_left).
Proof.
  split; [|split].
  - destruct (merge_metadata_dict_empty None (Some DNil)) as (H1 & _ & _).
    apply H1; [by left | by right].
  - destruct (merge_metadata_dict_empty (Some DNil) (Some sample_right))
      as (_ & H2 & _).
    apply H2; [by right|]. intros [?|?]; discriminate.
  - destruct (merge_metadata_dict_empty (Some sample_left) None) as (_ & _ & H3).
    apply H3; [|by left]. intros [?|?]; discriminate.
Defined.

End MetadataFacts.

(** ** The graph memory, for any collaborators *)

Section GraphFacts.

Import Graph.

Context {F : Type} `{Collaborators (F := F)}.

Lemma bind_ok {A B} (m : M A) (k : A → M B) w b w' :
  bind m k w = (Ok b, w') →
  ∃ a w1, m w = (Ok a, w1) ∧ k a w1 = (Ok b, w').
Proof.
  unfold bind. destruct (m w) as [[a|e] w1]; [|discriminate].
  intros Hk. by exists a, w1.
Qed.

Lemma lift_ok {A} (r : result A) w a w' :
  lift r w = (Ok a, w') → r = Ok a ∧ w' = w.
Proof. unfold lift. intros [= -> ->]. done. Qed.

(** C5.  Once the three statements of [_update_relationship] have run, the
    rows of the creation decide the outcome: no row raises the exception
    whose message is built from [source] and [target], at least one row
    returns normally.  In both cases the store is the one the creation
    left, and the log has one more line. *)
Theorem update_relationship_outcome (source target relationship : string)
    (w : world) g1 r1 g2 r2 g3 rows :
  graph_query (CheckAndCreate source target) (graph w) = Ok (g1, r1) →
  graph_query (DeleteRelationships source target) g1 = Ok (g2, r2) →
  graph_query (CreateRelationship (normalize relationship) source target) g2
    = Ok (g3, rows) →
  update_failed_msg source target
    = "Failed to update or create relationship between " +:+ source
      +:+ " and " +:+ target
  ∧ ∃ line,
      let w' := {| graph := g3; log := log w ++ [line] |} in
      (rows = [] →
         _update_relationship source target relationship w
         = (Raise (PyException (update_failed_msg source target)), w'))
      ∧ (rows ≠ [] →
         _update_relationship source target relationship w = (Ok tt, w')).
Proof.
  intros H1 H2 H3. split; [done|]. eexists.
  unfold _update_relationship, bind, logger_info, query. simpl.
  rewrite H1. simpl. rewrite H2. simpl. rewrite H3. simpl.
  split; intros Hrows.
  - subst rows. reflexivity.
  - destruct rows; [done|]. reflexivity.
Qed.

(** C9.  A tool call named [noop] changes nothing and raises nothing: the
    queue of additions, the store and the log are the same after it, and
    the loop over the tool calls gives the same outcome with or without
    it. *)
Theorem dispatch_noop (item : tool_call) :
  name item = "noop" →
  (∀ to_be_added w, dispatch item to_be_added w = (Ok to_be_added, w))
  ∧ (∀ before after acc w,
       for_each dispatch (before ++ item :: after) acc w
       = for_each dispatch (before ++ after) acc w).
Proof.
  intros Hname.
  assert (∀ to_be_added w, dispatch item to_be_added w = (Ok to_be_added, w)) as Hd.
  { intros tba w. unfold dispatch. rewrite Hname. reflexivity. }
  split; [exact Hd|].
  induction before as [|c before IH]; intros after acc w; simpl.
  - unfold bind. by rewrite Hd.
  - unfold bind. destruct (dispatch c acc w) as [[acc'|e] w1]; [|done].
    apply IH.
Qed.

(** C8, as the code has it.  A tool call whose name is none of
    [add_graph_memory], [update_graph_memory], [noop] is skipped: nothing
    is queued, the store and the log are unchanged, and no exception is
    raised. *)
Theorem dispatch_unknown (item : tool_call) :
  name item ≠ "add_graph_memory" →
  name item ≠ "update_graph_memory" →
  name item ≠ "noop" →
  ∀ to_be_added w, dispatch item to_be_added w = (Ok to_be_added, w).
Proof.
  intros Ha Hu Hn tba w. unfold dispatch.
  by rewrite !decide_False.
Qed.

Lemma comprehension_ok {A B} (f : A → result B) l ys :
  comprehension f l = Ok ys → Forall2 (fun x y => f x = Ok y) l ys.
Proof.
  revert ys. induction l as [|x l IH]; intros ys Hys; simpl in Hys.
  - inversion Hys. constructor.
  - destruct (f x) as [y|] eqn:Hy; [|discriminate].
    destruct (comprehension f l) as [ys'|]; [|discriminate].
    inversion Hys; subst. constructor; [done|]. by apply IH.
Qed.

Lemma row_document_ok (item : row F) (d : document) :
  row_document item = Ok d →
  item !! "source" = Some d.1.1 ∧ item !! "relation" = Some d.1.2
  ∧ item !! "destination" = Some d.2.
Proof.
  unfold row_document, getitem. intros Hd.
  destruct (item !! "source") as [s|]; simpl in Hd; [|discriminate].
  destruct (item !! "relation") as [r|]; simpl in Hd; [|discriminate].
  destruct (item !! "destination") as [t|]; simpl in Hd; [|discriminate].
  inversion Hd; subst. done.
Qed.

Lemma comprehension_total {A B} (f : A → result B) (l : list A) :
  (∀ x, x ∈ l → ∃ y, f x = Ok y) →
  ∃ ys, comprehension f l = Ok ys ∧ length ys = length l.
Proof.
  induction l as [|x l IH]; intros Hf; simpl; [by exists []|].
  destruct (Hf x) as [y Hy]; [left|]. rewrite Hy.
  destruct IH as (ys & -> & Hlen); [intros z Hz; apply Hf; by right|].
  exists (y :: ys). simpl. by rewrite Hlen.
Qed.

(** What a normal return of [search] on the rows of [_search] gives, for
    any ranking: at most 5 results, each the mapping of one row, in the
    order of the first 5 indices of the ranking. *)
Lemma search_results (self : memory_graph) (q : string) (w : world) rows w1 res w' :
  _search self q w = (Ok rows, w1) →
  search self q w = (Ok res, w') →
  (length res ≤ 5)%nat
  ∧ (∀ r, r ∈ res →
       ∃ item s p d, item ∈ rows
         ∧ item !! "source" = Some s ∧ item !! "relation" = Some p
         ∧ item !! "destination" = Some d
         ∧ r = {[ "source" := s; "relation" := p; "destination" := d ]})
  ∧ (rows ≠ [] →
       ∃ docs, comprehension row_document rows = Ok docs
         ∧ Forall2 (fun i r => result_of_document <$> docs !! i = Some r)
             (take 5 (bm25_ranking (doc_tokens <$> docs) (Py.split_char " " q)))
             res).
Proof.
  intros Hs. unfold search, bind at 1. rewrite Hs.
  destruct rows as [|item0 rows0].
  { intros [= <- <-]. split; [simpl; lia|]. split; [|done].
    intros r Hr. by apply elem_of_nil in Hr. }
  set (rows := item0 :: rows0) in *.
  unfold bind, lift, logger_info, ret.
  destruct (comprehension row_document rows) as [docs|] eqn:Hdocs; [|discriminate].
  destruct (get_top_n docs (Py.split_char " " q) docs 5) as [top|] eqn:Htop;
    [|discriminate].
  intros [= <- <-].
  apply comprehension_ok in Hdocs. unfold get_top_n in Htop.
  apply comprehension_ok in Htop.
  set (idx := take 5 (bm25_ranking (doc_tokens <$> docs) (Py.split_char " " q))) in *.
  assert (Forall2 (fun i d => docs !! i = Some d) idx top) as Hsel.
  { eapply Forall2_impl; [exact Htop|]. simpl. intros i d Hi.
    destruct (docs !! i); [congruence | discriminate]. }
  split; [|split].
  + rewrite length_fmap, <- (Forall2_length _ _ _ Hsel).
    subst idx. rewrite length_take. lia.
  + intros r Hr. apply list_elem_of_fmap in Hr as (d & -> & Hd).
    destruct (proj1 (list_elem_of_lookup top d) Hd) as [j Hj].
    destruct (Forall2_lookup_r _ _ _ _ _ Hsel Hj) as (i & _ & Hi).
    destruct (Forall2_lookup_r _ _ _ _ _ Hdocs Hi) as (item & Hitem & Hdoc).
    apply row_document_ok in Hdoc as (Hsrc & Hrel & Hdst).
    exists item, d.1.1, d.1.2, d.2.
    split; [by eapply list_elem_of_lookup_2|]. done.
  + intros _. exists docs. split; [done|].
    apply Forall2_fmap_r. eapply Forall2_impl; [exact Hsel|].
    simpl. intros i d ->. done.
Qed.

(** [search] returns normally on rows that have the three columns, when
    the ranking is a permutation of the document indices. *)
Lemma search_runs (self : memory_graph) (q : string) (w : world) rows w1 :
  _search self q w = (Ok rows, w1) →
  rows ≠ [] →
  (∀ item, item ∈ rows →
     is_Some (item !! "source") ∧ is_Some (item !! "relation")
     ∧ is_Some (item !! "destination")) →
  (∀ corpus tokens, bm25_ranking corpus tokens ≡ₚ seq 0 (length corpus)) →
  ∃ res,
    search self q w
    = (Ok res, {| graph := graph w1; log := log w1 ++ [returned_msg (length res)] |})
    ∧ length res = 5 `min` length rows.
Proof.
  intros Hs Hne Hcols Hrank. unfold search, bind at 1. rewrite Hs.
  destruct rows as [|item0 rows0]; [done|]. set (rows := item0 :: rows0) in *.
  destruct (comprehension_total row_document rows) as (docs & Hdocs & Hlen).
  { intros item Hin. destruct (Hcols item Hin) as ([s Hsrc] & [p Hrel] & [d Hdst]).
    exists (s, p, d). unfold row_document, getitem. by rewrite Hsrc, Hrel, Hdst. }
  set (idx := take 5 (bm25_ranking (doc_tokens <$> docs) (Py.split_char " " q))).
  destruct (comprehension_total
              (fun i => match docs !! i with
                        | Some d => Ok d
                        | None => Raise (IndexError "list index out of range")
                        end) idx) as (top & Htop & Hlen').
  { intros i Hi. apply elem_of_take in Hi as (j & Hj & _).
    apply list_elem_of_lookup_2 in Hj. rewrite Hrank in Hj.
    apply elem_of_seq in Hj as [_ Hj]. rewrite length_fmap in Hj. simpl in Hj.
    destruct (lookup_lt_is_Some_2 docs i Hj) as [d Hd]. exists d. by rewrite Hd. }
  exists (result_of_document <$> top). split.
  - unfold bind, lift, logger_info, ret, get_top_n. fold rows.
    rewrite Hdocs. fold idx. by rewrite Htop.
  - rewrite length_fmap, Hlen'. unfold idx. rewrite length_take.
    rewrite (Permutation_length (Hrank _ _)), length_seq, length_fmap. by rewrite Hlen.
Qed.

(** C7, as the code has it: the bound is 5, fixed in the call of
    [get_top_n]; [search] takes the query and nothing else.  On the rows
    that [_search] returns:

    - without rows, [search] returns the empty list, in the world that
      [_search] left, and raises nothing;
    - with rows that have the columns [source], [relation] and
      [destination], and a BM25 ranking that is a permutation of the
      document indices (as [argsort] gives), [search] returns normally:
      it logs one line and returns [min(5, len(rows))] results, each the
      [{source, relation, destination}] mapping of one of the rows, namely
      the documents at the first 5 indices of the ranking, in that order;
    - for any ranking, a normal return gives at most 5 results, each the
      mapping of one of the rows, in the order of the ranking. *)
Theorem search_top_n (self : memory_graph) (q : string) (w : world) rows w1 :
  _search self q w = (Ok rows, w1) →
  (rows = [] → search self q w = (Ok [], w1))
  ∧ (rows ≠ [] →
     (∀ item, item ∈ rows →
        is_Some (item !! "source") ∧ is_Some (item !! "relation")
        ∧ is_Some (item !! "destination")) →
     (∀ corpus tokens, bm25_ranking corpus tokens ≡ₚ seq 0 (length corpus)) →
     ∃ res docs,
       search self q w
       = (Ok res, {| graph := graph w1;
                     log := log w1 ++ [returned_msg (length res)] |})
       ∧ length res = 5 `min` length rows
       ∧ (∀ r, r ∈ res →
            ∃ item s p d, item ∈ rows
              ∧ item !! "source" = Some s ∧ item !! "relation" = Some p
              ∧ item !! "destination" = Some d
              ∧ r = {[ "source" := s; "relation" := p; "destination" := d ]})
       ∧ comprehension row_document rows = Ok docs
       ∧ Forall2 (fun i r => result_of_document <$> docs !! i = Some r)
           (take 5 (bm25_ranking (doc_tokens <$> docs) (Py.split_char " " q)))
           res)
  ∧ (∀ res w', search self q w = (Ok res, w') →
       (length res ≤ 5)%nat
       ∧ (∀ r, r ∈ res →
            ∃ item s p d, item ∈ rows
              ∧ item !! "source" = Some s ∧ item !! "relation" = Some p
              ∧ item !! "destination" = Some d
              ∧ r = {[ "source" := s; "relation" := p; "destination" := d ]})
       ∧ (rows ≠ [] →
            ∃ docs, comprehension row_document rows = Ok docs
              ∧ Forall2 (fun i r => result_of_document <$> docs !! i = Some r)
                  (take 5 (bm25_ranking (doc_tokens <$> docs) (Py.split_char " " q)))
                  res)).
Proof.
  intros Hs. split; [|split].
  - intros ->. unfold search, bind. by rewrite Hs.
  - intros Hne Hcols Hrank.
    destruct (search_runs self q w rows w1 Hs Hne Hcols Hrank) as (res & Hres & Hlen).
    destruct (search_results self q w rows w1 res _ Hs Hres) as (_ & Hrows & Hdocs).
    destruct (Hdocs Hne) as (docs & Hd & Hord).
    by exists res, docs.
  - intros res w'. by apply (search_results self q w rows w1).
Qed.

(** The queue that the loop over the tool calls builds: the arguments of
    the calls named [add_graph_memory], in their order. *)
Lemma dispatch_queue (item : tool_call) acc w acc' w1 :
  dispatch item acc w = (Ok acc', w1) →
  acc' = acc ++ (args <$> filter (fun c => name c = "add_graph_memory") [item]).
Proof.
  unfold dispatch. rewrite filter_cons, filter_nil.
  destruct (decide (name item = "add_graph_memory")).
  { intros [= <- <-]. done. }
  rewrite app_nil_r.
  destruct (decide (name item = "update_graph_memory")).
  { intros Hb.
    apply bind_ok in Hb as (? & ? & _ & Hb). apply bind_ok in Hb as (? & ? & _ & Hb).
    apply bind_ok in Hb as (? & ? & _ & Hb). apply bind_ok in Hb as (? & ? & _ & Hb).
    by inversion Hb. }
  destruct (decide (name item = "noop")); by intros [= <- <-].
Qed.

Lemma for_each_dispatch_queue calls : ∀ acc w to_be_added w1,
  for_each dispatch calls acc w = (Ok to_be_added, w1) →
  to_be_added = acc ++ (args <$> filter (fun c => name c = "add_graph_memory") calls).
Proof.
  induction calls as [|c calls IH]; intros acc w tba w1 Hf; simpl in Hf.
  - inversion Hf. by rewrite filter_nil, app_nil_r.
  - apply bind_ok in Hf as (acc' & w2 & Hd & Hf).
    apply dispatch_queue in Hd. apply IH in Hf. subst.
    change (c :: calls) with ([c] ++ calls).
    by rewrite filter_app, fmap_app, app_assoc.
Qed.

(** The only count that [add] produces is the one in its last log line:
    the number of tool calls named [add_graph_memory] in the answer of the
    reconciliation request, whether or not their insertion created
    anything. *)
Lemma add_logs_queued (self : memory_graph) (data : string) (w w' : world) :
  add self data w = (Ok tt, w') →
  ∃ search_output w1 extracted_entities memory_updates,
    _search self data w = (Ok search_output, w1)
    ∧ generate_response
        (get_update_memory_messages search_output extracted_entities)
        [UPDATE_MEMORY_TOOL_GRAPH; ADD_MEMORY_TOOL_GRAPH; NOOP_TOOL]
      = Ok memory_updates
    ∧ last (log w')
      = Some (added_msg
                (length (filter (fun c => name c = "add_graph_memory")
                           memory_updates))).
Proof.
  intros Hadd. unfold add in Hadd.
  apply bind_ok in Hadd as (search_output & w1 & Hs & Hadd).
  apply bind_ok in Hadd as (system & w2 & _ & Hadd).
  apply bind_ok in Hadd as (extracted & w3 & _ & Hadd).
  apply bind_ok in Hadd as (entities & w4 & _ & Hadd).
  apply bind_ok in Hadd as (updates & w5 & Hu & Hadd).
  apply lift_ok in Hu as [Hu _].
  apply bind_ok in Hadd as (tba & w6 & Hq & Hadd).
  apply bind_ok in Hadd as (? & w7 & _ & Hadd).
  apply for_each_dispatch_queue in Hq. simpl in Hq. subst tba.
  unfold logger_info in Hadd. inversion Hadd; subst. simpl.
  exists search_output, w1, entities, updates.
  split; [done|]. split; [done|].
  by rewrite last_snoc, length_fmap.
Qed.

End GraphFacts.

(** ** Relationship replacement on the reference store *)

Section Neo4jFacts.

Import Graph Neo4j.

Context {F : Type}.

Implicit Types (g : @pgraph F) (a b : nat) (s t ty : string).

Lemma elem_of_matching (P : node → bool) g a :
  a ∈ matching P g ↔ ∃ n, nodes g !! a = Some n ∧ P n = true.
Proof.
  unfold matching. rewrite list_elem_of_fmap. split.
  - intros ([a' n] & -> & Hin). apply list_elem_of_filter in Hin as [HP Hin].
    apply elem_of_map_to_list in Hin. by exists n.
  - intros (n & Hn & HP). exists (a, n). split; [done|].
    apply list_elem_of_filter. split; [done|]. by apply elem_of_map_to_list.
Qed.

Lemma NoDup_matching (P : node → bool) g : NoDup (matching P g).
Proof.
  unfold matching.
  apply (sublist_NoDup _ ((map_to_list (nodes g)).*1));
    [apply NoDup_fst_map_to_list|].
  apply fmap_sublist, sublist_filter.
Qed.

Lemma elem_of_named g s a : a ∈ named s g ↔ node_named g s a.
Proof.
  unfold named, node_named. rewrite elem_of_matching.
  unfold has_name. split; intros (n & Hn & Hs); exists n; split; try done.
  - by apply bool_decide_eq_true in Hs.
  - by apply bool_decide_eq_true.
Qed.

Lemma add_node_lookup g (n : node) a (m : node) :
  nodes g !! a = Some m → nodes (add_node n g) !! a = Some m.
Proof.
  intros Ha. unfold add_node. simpl. rewrite lookup_insert_ne; [done|].
  intros <-. apply (is_fresh (dom (nodes g))). apply elem_of_dom. by eexists.
Qed.

Lemma merge_bare_keeps g s t a :
  node_named g t a → node_named (merge_bare s g) t a.
Proof.
  intros (n & Hn & Ht). unfold merge_bare.
  destruct (named s g); [|by exists n].
  exists n. split; [|done]. by apply add_node_lookup.
Qed.

Lemma merge_bare_creates g s : ∃ a, node_named (merge_bare s g) s a.
Proof.
  unfold merge_bare. destruct (named s g) as [|a l] eqn:Hl.
  - eexists (fresh (dom (nodes g))), _. split; [apply lookup_insert_eq | done].
  - exists a. apply elem_of_named. rewrite Hl. apply elem_of_cons. by left.
Qed.

(** The number of occurrences of [x] in [l]. *)
Local Abbreviation occ x l := (length (filter (fun y => y = x) l)).

Lemma occ_absent {A} `{EqDecision A} (x : A) (l : list A) :
  x ∉ l → occ x l = 0.
Proof.
  induction l as [|y l IH]; intros Hx; [done|].
  apply not_elem_of_cons in Hx as [Hne Hx].
  rewrite filter_cons_False by congruence. by apply IH.
Qed.

Lemma occ_NoDup {A} `{EqDecision A} (x : A) (l : list A) :
  NoDup l → x ∈ l → occ x l = 1.
Proof.
  induction 1 as [|y l Hy Hnd IH]; intros Hx.
  - by apply elem_of_nil in Hx.
  - rewrite filter_cons. destruct (decide (y = x)) as [->|Hne].
    + simpl. f_equal. by apply occ_absent.
    + apply elem_of_cons in Hx as [->|Hx]; [done|]. by apply IH.
Qed.

Lemma occ_pair_row (x a b : nat) (l : list nat) :
  occ (a, b) (pair x <$> l) = if decide (x = a) then occ b l else 0.
Proof.
  destruct (decide (x = a)) as [->|Hne].
  - induction l as [|y l IH]; [done|]. rewrite fmap_cons, !filter_cons.
    destruct (decide (y = b)) as [->|Hb].
    + rewrite decide_True by done. cbn [length]. by rewrite IH.
    + rewrite decide_False by congruence. done.
  - induction l as [|y l IH]; [done|].
    rewrite fmap_cons, filter_cons, decide_False by congruence. done.
Qed.

Lemma occ_list_prod (a b : nat) (l1 l2 : list nat) :
  occ (a, b) (list_prod l1 l2) = occ a l1 * occ b l2.
Proof.
  induction l1 as [|x l1 IH]; simpl; [done|].
  rewrite filter_app, length_app, IH.
  change (map (fun y => (x, y)) l2) with (pair x <$> l2).
  rewrite occ_pair_row, filter_cons.
  destruct (decide (x = a)); simpl; lia.
Qed.

(** Creating relationships for a list of pairs keeps the nodes and adds,
    between [a] and [b], one relationship for each occurrence of the pair. *)
Lemma create_rels_nodes ty (pairs : list (nat * nat)) :
  ∀ (acc : pgraph * list (row F)),
    nodes (fold_left (create_rel ty) pairs acc).1 = nodes acc.1.
Proof.
  induction pairs as [|p pairs IH]; intros acc; simpl; [done|].
  by rewrite IH.
Qed.

Lemma create_rels_types ty (pairs : list (nat * nat)) a b :
  ∀ (acc : pgraph * list (row F)),
    types_between (fold_left (create_rel ty) pairs acc).1 a b
    = types_between acc.1 a b ++ replicate (occ (a, b) pairs) ty.
Proof.
  induction pairs as [|p pairs IH]; intros acc; simpl.
  - by rewrite app_nil_r.
  - rewrite IH. unfold types_between at 1. simpl.
    rewrite filter_app, fmap_app, <- app_assoc. f_equal.
    rewrite filter_cons, filter_nil. simpl. destruct p as [x y]. simpl.
    rewrite filter_cons.
    destruct (decide ((x, y) = (a, b))) as [[= -> ->]|Hne].
    + by rewrite decide_True.
    + rewrite decide_False; [done|]. intros [-> ->]. done.
Qed.

Lemma create_rels_rows ty (pairs : list (nat * nat)) :
  ∀ (acc : pgraph * list (row F)),
    length (fold_left (create_rel ty) pairs acc).2 = length acc.2 + length pairs.
Proof.
  induction pairs as [|p pairs IH]; intros acc; simpl; [lia|].
  rewrite IH. simpl. rewrite length_app. simpl. lia.
Qed.

Lemma delete_between_types g s t a b :
  node_named g s a → node_named g t b →
  types_between (delete_between s t g) a b = [].
Proof.
  intros (n & Hn & Hs) (m & Hm & Ht). unfold types_between, delete_between.
  simpl. induction (rels g) as [|r l IH]; [done|].
  rewrite filter_cons. destruct (decide (joins_names g s t r = false)) as [Hj|Hj].
  - rewrite filter_cons_False; [exact IH|].
    intros [Hsrc Hdst]. unfold joins_names in Hj.
    rewrite Hsrc, Hn, Hdst, Hm in Hj. unfold has_name in Hj.
    rewrite !bool_decide_eq_true_2 in Hj by done. discriminate.
  - exact IH.
Qed.

Lemma node_named_nodes g g' s a :
  nodes g' = nodes g → node_named g' s a ↔ node_named g s a.
Proof. unfold node_named. by intros ->. Qed.

Context (similar : @pgraph F → list F → F → list (row F))
        (spliced : @cypher F → @pgraph F → result (@pgraph F * list (row F)))
        (embed_text : string → result (list F))
        (llm : list message → list tool → result (list tool_call))
        (prompt : string)
        (update_messages : list (row F) → list (gmap string string) → list message)
        (ranking : list (list (@cell F)) → list string → list nat).

Local Abbreviation C :=
  (collaborators similar spliced embed_text llm prompt update_messages ranking).

(** A statement whose spliced texts are plain names has the effect that
    [statement] gives it. *)
Lemma run_plain (q : @cypher F) g :
  plain q = true → run similar spliced q g = Ok (statement similar q g).
Proof. unfold run. by intros ->. Qed.

(** One relationship replacement with a plain relationship type that
    returns normally leaves, between any node named [source] and any node
    named [target], exactly the new relationship; and such nodes exist. *)
Lemma update_relationship_replaces (source target relationship : string)
    (w w' : @world F C) :
  symbolic_name (normalize relationship) = true →
  _update_relationship (H := C) source target relationship w = (Ok tt, w') →
  (∃ a b, node_named (graph w') source a ∧ node_named (graph w') target b)
  ∧ (∀ a b, node_named (graph w') source a → node_named (graph w') target b →
       types_between (graph w') a b = [normalize relationship]).
Proof.
  intros Hname.
  unfold _update_relationship, bind, logger_info, query. simpl.
  unfold run. simpl. rewrite Hname. simpl.
  set (g1 := merge_bare target (merge_bare source (graph w))).
  set (g2 := delete_between source target g1).
  unfold create_between.
  set (pairs := list_prod (named source g2) (named target g2)).
  destruct (fold_left (create_rel (normalize relationship)) pairs (g2, []))
    as [g3 rows] eqn:Hfold.
  destruct rows as [|row0 rows]; [discriminate|].
  unfold ret. intros [= <-]. simpl.
  assert (g3 = (fold_left (create_rel (normalize relationship)) pairs (g2, [])).1)
    as Hg3 by (by rewrite Hfold).
  assert (nodes g3 = nodes g1) as Hnodes.
  { rewrite Hg3. by rewrite create_rels_nodes. }
  split.
  - destruct (merge_bare_creates (graph w) source) as [a Ha].
    destruct (merge_bare_creates (merge_bare source (graph w)) target) as [b Hb].
    exists a, b. split; apply (node_named_nodes g1 g3 _ _ Hnodes).
    + by apply merge_bare_keeps.
    + done.
  - intros a b Ha Hb.
    apply (node_named_nodes g1 g3 _ _ Hnodes) in Ha, Hb.
    rewrite Hg3, create_rels_types. simpl.
    unfold g2 at 1. rewrite (delete_between_types g1 source target a b Ha Hb).
    unfold pairs. rewrite occ_list_prod.
    rewrite (occ_NoDup a), (occ_NoDup b); try apply NoDup_matching; try done.
    + apply elem_of_named. by apply (node_named_nodes g1 g2).
    + apply elem_of_named. by apply (node_named_nodes g1 g2).
Qed.

(** The replacement returns normally whenever the normalised relationship
    is a plain name: the two nodes exist after the first statement, so the
    creation returns a row. *)
Lemma update_relationship_returns (source target relationship : string)
    (w : @world F C) :
  symbolic_name (normalize relationship) = true →
  ∃ w', _update_relationship (H := C) source target relationship w = (Ok tt, w').
Proof.
  intros Hname.
  unfold _update_relationship, bind, logger_info, query. simpl.
  unfold run. simpl. rewrite Hname. simpl.
  set (g1 := merge_bare target (merge_bare source (graph w))).
  set (g2 := delete_between source target g1).
  unfold create_between.
  set (pairs := list_prod (named source g2) (named target g2)).
  pose proof (create_rels_rows (normalize relationship) pairs (g2, [])) as Hlen.
  destruct (fold_left (create_rel (normalize relationship)) pairs (g2, []))
    as [g3 rows].
  simpl in Hlen.
  destruct (merge_bare_creates (graph w) source) as [a Ha].
  destruct (merge_bare_creates (merge_bare source (graph w)) target) as [b Hb].
  apply (merge_bare_keeps _ target) in Ha.
  assert (a ∈ named source g2) as Hina by (by apply elem_of_named).
  assert (b ∈ named target g2) as Hinb by (by apply elem_of_named).
  unfold pairs in Hlen. rewrite length_prod in Hlen.
  destruct (named source g2) as [|? ?]; [by apply elem_of_nil in Hina|].
  destruct (named target g2) as [|? ?]; [by apply elem_of_nil in Hinb|].
  destruct rows as [|row0 rows]; [simpl in Hlen; lia|].
  by eexists.
Qed.

(** C1, as the code has it, on the reference store.  The relationship is
    lower-cased and its spaces are replaced by underscores before it is
    spliced, unquoted, into the creation.  When [r1] and [r2] then are
    plain names, [replace(A, B, r1)] and then [replace(A, B, r2)] both
    return normally; afterwards there is a node named [A] and a node named
    [B], and from any node named [A] to any node named [B] there is exactly
    one relationship, whose type is the normalised [r2] (and after the
    first call alone, the normalised [r1]).  For other texts the spliced
    statement is not the one of the source, and nothing is stated. *)
Theorem update_relationship_single (A B r1 r2 : string) (w : @world F C) :
  symbolic_name (normalize r1) = true →
  symbolic_name (normalize r2) = true →
  ∃ w1 w2,
    _update_relationship (H := C) A B r1 w = (Ok tt, w1)
    ∧ _update_relationship (H := C) A B r2 w1 = (Ok tt, w2)
    ∧ (∃ a b, node_named (graph w2) A a ∧ node_named (graph w2) B b)
    ∧ (∀ a b, node_named (graph w2) A a → node_named (graph w2) B b →
         types_between (graph w2) a b = [normalize r2])
    ∧ (∀ a b, node_named (graph w1) A a → node_named (graph w1) B b →
         types_between (graph w1) a b = [normalize r1]).
Proof.
  intros Hr1 Hr2.
  destruct (update_relationship_returns A B r1 w Hr1) as [w1 H1].
  destruct (update_relationship_returns A B r2 w1 Hr2) as [w2 H2].
  destruct (update_relationship_replaces A B r2 w1 w2 Hr2 H2) as [Hex Hone].
  destruct (update_relationship_replaces A B r1 w w1 Hr1 H1) as [_ Hfirst].
  by exists w1, w2.
Qed.

End Neo4jFacts.

(** ** Runs on concrete collaborators *)

Section Runs.

Import Graph Neo4j Scenario.

Lemma outcome_eta {A W} (p : result A * W) (a : A) :
  p.1 = Ok a → p = (Ok a, p.2).
Proof. destruct p as [r w]. simpl. by intros ->. Qed.

(** C6 at the input ["New York"], ["new_york"]: the lists are deduplicated
    before they are normalised, so the normalised node list (and relation
    list) holds the same name twice. *)
Theorem search_lists_duplicates :
  search_lists [search_call ["New York"; "new_york"] ["Lives In"; "lives_in"]]
  = Ok (["new_york"; "new_york"], ["lives_in"; "lives_in"])
  ∧ ¬ NoDup ["new_york"; "new_york"].
Proof.
  split; [by vm_compute|].
  intros Hnd. apply NoDup_cons in Hnd as [Hnotin _]. apply Hnotin.
  apply elem_of_cons. by left.
Qed.

(** C1 as stated fails when [r2] is not in normal form: after
    [replace("alice", "paris", "likes")] and
    [replace("alice", "paris", "Dislikes")] the one relationship from alice
    to paris has type ["dislikes"], not ["Dislikes"]. *)
Lemma update_relationship_label_counterexample :
  _update_relationship (H := neo4j [] []) "alice" "paris" "likes"
    (start (C := neo4j [] []) empty_graph) = (Ok tt, likes_world)
  ∧ _update_relationship (H := neo4j [] []) "alice" "paris" "Dislikes" likes_world
    = (Ok tt, dislikes_world)
  ∧ node_named (graph dislikes_world) "alice" 0
  ∧ node_named (graph dislikes_world) "paris" 1
  ∧ types_between (graph dislikes_world) 0 1 = ["dislikes"]
  ∧ types_between (graph dislikes_world) 0 1 ≠ ["Dislikes"].
Proof.
  split; [apply outcome_eta; by vm_compute|].
  split; [apply outcome_eta; by vm_compute|].
  split.
  { exists {| labels := []; node_name := "alice"; node_embedding := None |}.
    split; by vm_compute. }
  split.
  { exists {| labels := []; node_name := "paris"; node_embedding := None |}.
    split; by vm_compute. }
  split; [by vm_compute|]. vm_compute. discriminate.
Qed.

(** The two replacements between alice and paris on an empty store. *)
Lemma update_relationship_single_witness :
  ∃ w1 w2,
    _update_relationship (H := neo4j [] []) "alice" "paris" "likes"
      (start (C := neo4j [] []) empty_graph) = (Ok tt, w1)
    ∧ _update_relationship (H := neo4j [] []) "alice" "paris" "Dislikes" w1
      = (Ok tt, w2)
    ∧ (∃ a b, node_named (graph w2) "alice" a ∧ node_named (graph w2) "paris" b)
    ∧ (∀ a b, node_named (graph w2) "alice" a → node_named (graph w2) "paris" b →
         types_between (graph w2) a b = [normalize "Dislikes"])
    ∧ (∀ a b, node_named (graph w1) "alice" a → node_named (graph w1) "paris" b →
         types_between (graph w1) a b = [normalize "likes"]).
Proof.
  apply (update_relationship_single every_rel refused
           (fun s => Ok [Z.of_nat (String.length s)]) (scripted_llm [] [])
           "Extract the entities of USER_ID. CUSTOM_PROMPT" (fun _ _ => [])
           tied
           "alice" "paris" "likes" "Dislikes"
           (start (C := neo4j [] []) empty_graph)); reflexivity.
Defined.

(** C2 at the input where the model restates one fact in two
    [add_graph_memory] calls: [add] returns normally and its value is
    [None]; the only count it produces is the 2 of its last log line,
    while the store has one relationship more than before. *)
Theorem add_returns_no_count :
  add (H := neo4j [] restated) alice "Alice lives in Paris"
    (start (C := neo4j [] restated) empty_graph) = (Ok tt, restated_world)
  ∧ last (log restated_world) = Some (added_msg 2)
  ∧ inserted_edges empty_graph (graph restated_world) = 1
  ∧ added_msg 2 ≠ added_msg (inserted_edges empty_graph (graph restated_world)).
Proof.
  split; [apply outcome_eta; by vm_compute|].
  split; [by vm_compute|]. split; [by vm_compute|].
  vm_compute. discriminate.
Qed.

(** On the stub the creation returns no row and the replacement raises; on
    the reference store it returns a row and the replacement returns. *)
Lemma update_relationship_outcome_witness :
  (∃ w', _update_relationship (H := stub []) "alice" "paris" "likes"
           (start (C := stub []) tt)
         = (Raise (PyException
                     "Failed to update or create relationship between alice and paris"),
            w'))
  ∧ (∃ w', _update_relationship (H := neo4j [] []) "alice" "paris" "likes"
             (start (C := neo4j [] []) empty_graph) = (Ok tt, w')).
Proof.
  split.
  - destruct (update_relationship_outcome (H := stub []) "alice" "paris" "likes"
                (start (C := stub []) tt) tt [] tt [] tt []
                eq_refl eq_refl eq_refl) as [_ [line [Hnone _]]].
    eexists. exact (Hnone eq_refl).
  - pose (g1 := merge_bare "paris" (merge_bare "alice" (@empty_graph Z))).
    pose (g2 := delete_between "alice" "paris" g1).
    pose (made := create_between (F := Z) "likes" "alice" "paris" g2).
    assert (run every_rel refused
              (CreateRelationship (normalize "likes") "alice" "paris") g2
            = Ok (made.1, made.2)) as Hmade.
    { vm_compute. reflexivity. }
    destruct (update_relationship_outcome (H := neo4j [] []) "alice" "paris" "likes"
                (start (C := neo4j [] []) empty_graph) g1 [] g2 [] made.1 made.2
                eq_refl eq_refl Hmade) as [_ [line [_ Hsome]]].
    eexists. apply Hsome. vm_compute. discriminate.
Defined.

(** The question about Alice on [paris_graph]: two rows are found and
    both are returned. *)
Lemma search_top_n_witness :
  ∃ res docs,
    search (H := asked) alice question (start (C := asked) paris_graph)
    = (Ok res, {| graph := graph found_world;
                  log := log found_world ++ [returned_msg (length res)] |})
    ∧ length res = 5 `min` length found_rows
    ∧ (∀ r, r ∈ res →
         ∃ item s p d, item ∈ found_rows
           ∧ item !! "source" = Some s ∧ item !! "relation" = Some p
           ∧ item !! "destination" = Some d
           ∧ r = {[ "source" := s; "relation" := p; "destination" := d ]})
    ∧ comprehension row_document found_rows = Ok docs
    ∧ Forall2 (fun i r => result_of_document <$> docs !! i = Some r)
        (take 5 (bm25_ranking (Collaborators := asked)
                   (doc_tokens <$> docs) (Py.split_char " " question)))
        res.
Proof.
  destruct (search_top_n (H := asked) alice question (start (C := asked) paris_graph)
              found_rows found_world) as (_ & Hsome & _).
  { apply outcome_eta. vm_compute. reflexivity. }
  apply Hsome.
  - intros E. apply (f_equal length) in E. vm_compute in E. discriminate E.
  - apply (proj1 (Forall_forall
             (fun item : row Z =>
                is_Some (item !! "source") ∧ is_Some (item !! "relation")
                ∧ is_Some (item !! "destination")) found_rows)).
    apply (bool_decide_unpack _). vm_compute. exact I.
  - intros corpus tokens. apply reverse_Permutation.
Defined.

(** C7 as stated fails: [search] takes the query only, so no caller can
    choose the bound.  The question about Alice gets both facts about
    Paris, one more than a [top_n] of 1 allows. *)
Lemma search_fixed_bound_counterexample :
  ¬ (∀ top_n res w',
       search (H := asked) alice question (start (C := asked) paris_graph)
       = (Ok res, w') →
       (length res ≤ top_n)%nat).
Proof.
  intros Hbound.
  assert ((search (H := asked) alice question (start (C := asked) paris_graph)).1
          = Ok [ {[ "source" := CStr "bob"; "relation" := CStr "lives_in";
                    "destination" := CStr "paris" ]};
                 {[ "source" := CStr "alice"; "relation" := CStr "lives_in";
                    "destination" := CStr "paris" ]} ]) as Hrun.
  { vm_compute. reflexivity. }
  apply outcome_eta in Hrun. specialize (Hbound 1 _ _ Hrun). simpl in Hbound. lia.
Qed.

(** C8 as stated fails: a call of the tool [delete_graph_memory], which
    the reconciliation schema does not have, raises nothing; [add] returns
    normally, with the store as it was. *)
Lemma add_unknown_tool_counterexample :
  name unknown_call ≠ "add_graph_memory"
  ∧ name unknown_call ≠ "update_graph_memory"
  ∧ name unknown_call ≠ "noop"
  ∧ (add (H := neo4j [] [unknown_call]) alice "Alice likes Paris"
       (start (C := neo4j [] [unknown_call]) empty_graph)).1 = Ok tt
  ∧ graph (add (H := neo4j [] [unknown_call]) alice "Alice likes Paris"
             (start (C := neo4j [] [unknown_call]) empty_graph)).2 = empty_graph
  ∧ ¬ (∃ e w', add (H := neo4j [] [unknown_call]) alice "Alice likes Paris"
                 (start (C := neo4j [] [unknown_call]) empty_graph) = (Raise e, w')).
Proof.
  split; [done|]. split; [done|]. split; [done|].
  assert ((add (H := neo4j [] [unknown_call]) alice "Alice likes Paris"
             (start (C := neo4j [] [unknown_call]) empty_graph)).1 = Ok tt) as Hok.
  { vm_compute. reflexivity. }
  split; [exact Hok|]. split; [by vm_compute|].
  intros (e & w' & Hraise). rewrite Hraise in Hok. discriminate.
Qed.

(** The unknown call is skipped. *)
Lemma dispatch_unknown_witness :
  dispatch (H := stub []) unknown_call [] (start (C := stub []) tt)
  = (Ok [], start (C := stub []) tt).
Proof.
  apply (dispatch_unknown (H := stub []) unknown_call); discriminate.
Defined.

(** The [noop] call of the scenario. *)
Lemma dispatch_noop_witness :
  (∀ to_be_added w, dispatch (H := stub []) noop_call to_be_added w
                    = (Ok to_be_added, w))
  ∧ (∀ before after acc w,
       for_each (dispatch (H := stub [])) (before ++ noop_call :: after) acc w
       = for_each dispatch (before ++ after) acc w).
Proof.
  apply (dispatch_noop (H := stub []) noop_call). reflexivity.
Defined.

End Runs.

(* ================================================================== *)
(** * Further properties of the code *)
(* ================================================================== *)

(** ** Metadata merging: keys, success and associativity *)

Section MetadataMore.

Import Metadata Flat.

Lemma filter_ext_elem {A} (P Q : A → Prop) `{∀ x, Decision (P x)}
    `{∀ x, Decision (Q x)} (l : list A) :
  (∀ x, x ∈ l → P x ↔ Q x) → filter P l = filter Q l.
Proof.
  induction l as [|x l IH]; intros Hext; [done|].
  rewrite !filter_cons.
  assert (P x ↔ Q x) as Hx by (apply Hext; left).
  rewrite IH by (intros y Hy; apply Hext; by right).
  destruct (decide (P x)), (decide (Q x)); tauto.
Qed.

Lemma dget_Some_keys k v d : dget k d = Some v → k ∈ dkeys d.
Proof.
  induction d as [|k0 v0 rest IH]; simpl; [done|].
  destruct (decide (k0 = k)) as [->|Hne]; [left | right; auto].
Qed.

Lemma dget_is_None k d : dget k d = None ↔ k ∉ dkeys d.
Proof.
  split; [|apply dget_None_keys].
  intros Hk Hin. induction d as [|k0 v0 rest IH]; simpl in *.
  - by apply elem_of_nil in Hin.
  - destruct (decide (k0 = k)) as [->|Hne]; [done|].
    apply elem_of_cons in Hin as [->|Hin]; [done | auto].
Qed.

Lemma dkeys_dset k v d :
  dkeys (dset k v d) = if decide (k ∈ dkeys d) then dkeys d else dkeys d ++ [k].
Proof.
  induction d as [|k0 v0 rest IH]; simpl.
  - destruct (decide (k ∈ [])) as [Hin|]; [by apply elem_of_nil in Hin | done].
  - destruct (decide (k0 = k)) as [->|Hne]; simpl.
    + destruct (decide (k ∈ k :: dkeys rest)) as [|Hnin]; [done|].
      destruct Hnin. left.
    + rewrite IH. destruct (decide (k ∈ dkeys rest)) as [Hin|Hnin];
        destruct (decide (k ∈ k0 :: dkeys rest)) as [Hin'|Hnin']; try done.
      * destruct Hnin'. by right.
      * apply elem_of_cons in Hin' as [->|Hin']; done.
Qed.

Lemma merge_items_keys right : ∀ merged m,
  NoDup (dkeys right) →
  merge_items merged right = Ok m →
  dkeys m = dkeys merged ++ filter (fun k => k ∉ dkeys merged) (dkeys right).
Proof.
  induction right as [|k0 v0 rest IH]; intros merged m Hnd Hm.
  - simpl in *. inversion Hm. by rewrite filter_nil, app_nil_r.
  - rewrite merge_items_step in Hm. simpl in Hnd.
    apply NoDup_cons in Hnd as [Hk0 Hnd].
    destruct (merge_value nested_merge k0 (dget k0 merged) v0) as [x|]; [|done].
    rewrite (IH _ _ Hnd Hm), dkeys_dset. simpl. rewrite filter_cons.
    destruct (decide (k0 ∈ dkeys merged)) as [Hin|Hnin].
    + rewrite decide_False by tauto. done.
    + rewrite decide_True by done. rewrite <- app_assoc. simpl. do 2 f_equal.
      apply filter_ext_elem. intros k Hk. rewrite elem_of_app, list_elem_of_singleton.
      split; [tauto|]. intros Hn [?| ->]; done.
Qed.

Lemma merge_keys (left right m : option pydict) :
  NoDup (okeys right) →
  merge_metadata_dict left right = Ok m →
  okeys m = okeys left ++ filter (fun k => k ∉ okeys left) (okeys right).
Proof.
  intros Hnd Hm. unfold merge_metadata_dict in Hm.
  assert (∀ l : list string, filter (fun k => k ∉ []) l = l) as Hall.
  { intros l. induction l as [|x l IH]; [done|].
    rewrite filter_cons_True by apply not_elem_of_nil. by rewrite IH. }
  destruct (falsy left) eqn:Hl, (falsy right) eqn:Hr; simpl in Hm.
  - inversion Hm; subst. by destruct left as [[|]|], right as [[|]|].
  - inversion Hm; subst. destruct left as [[|]|]; try done; simpl; by rewrite Hall.
  - inversion Hm; subst. destruct right as [[|]|]; try done; simpl;
      by rewrite filter_nil, app_nil_r.
  - destruct left as [l|]; [|done]. destruct right as [r|]; [|done].
    destruct (merge_items l r) as [d|] eqn:Hd; [|done].
    inversion Hm; subst. simpl. exact (merge_items_keys r l d Hnd Hd).
Qed.


(** X1.  The keys of a merge keep the insertion order of Python: the
    keys of [left] in their order, then the keys that only [right] has, in
    the order of [right]. *)
Theorem merge_metadata_dict_keys (left right m : option pydict) :
  NoDup (okeys right) →
  merge_metadata_dict left right = Ok m →
  okeys m = okeys left ++ filter (fun k => k ∉ okeys left) (okeys right).
Proof. apply merge_keys. Qed.

(** X2.  A merge succeeds exactly when every key present on both sides
    holds two strings, or two dictionaries whose own merge succeeds. *)
Theorem merge_metadata_dict_succeeds (left right : option pydict) :
  NoDup (okeys right) →
  (∃ m, merge_metadata_dict left right = Ok m)
  ↔ (∀ k a b, olookup k left = Some a → olookup k right = Some b →
       (∃ s t, a = PStr s ∧ b = PStr t)
       ∨ (∃ d e x, a = PDict d ∧ b = PDict e
            ∧ merge_metadata_dict (Some d) (Some e) = Ok x)).
Proof.
  intros Hnd. split.
  - intros [m Hm] k a b Ha Hb.
    pose proof (merge_lookup _ _ _ Hnd Hm k) as Hk. rewrite Hb, Ha in Hk.
    destruct Hk as (x & Hx & _). simpl in Hx.
    destruct (decide (type_of a = type_of b)); [|discriminate].
    destruct b; try discriminate; destruct a; try discriminate.
    + left. by eexists _, _.
    + right. unfold nested_merge in Hx.
      destruct (merge_metadata_dict (Some d0) (Some d)) as [y|] eqn:Hy;
        [|discriminate].
      by exists d0, d, y.
  - intros Hall.
    destruct (merge_metadata_dict left right) as [m|e] eqn:Hm; [by exists m|].
    destruct (merge_raise _ _ _ Hnd Hm) as (k & b & Hb & Hv).
    destruct (olookup k left) as [a|] eqn:Ha; [|discriminate].
    destruct (Hall k a b Ha Hb) as [(s & t & -> & ->)|(d & e' & x & -> & -> & Hx)].
    + simpl in Hv. discriminate.
    + simpl in Hv. unfold nested_merge in Hv. rewrite Hx in Hv. discriminate.
Qed.

(** X3.  Two empty dictionaries under one key merge to [None], not to
    [{}]: the result holds [None] under that key, and merging it again with
    a dictionary that has a dictionary there fails with a [ValueError]. *)
Theorem merge_metadata_dict_empty_nested (left right m : option pydict) (k : string) :
  NoDup (okeys right) →
  olookup k left = Some (PDict DNil) →
  olookup k right = Some (PDict DNil) →
  merge_metadata_dict left right = Ok m →
  olookup k m = Some PNone
  ∧ (∀ next d, NoDup (okeys next) → olookup k next = Some (PDict d) →
       ∃ msg, merge_metadata_dict m next = Raise (ValueError msg)).
Proof.
  intros Hnd Hl Hr Hm.
  pose proof (merge_lookup _ _ _ Hnd Hm k) as Hk. rewrite Hr, Hl in Hk.
  destruct Hk as (x & Hx & Hk). simpl in Hx. inversion Hx; subst x.
  split; [done|]. intros next d Hnd' Hnext.
  destruct (merge_conflict m next k (PDict d) (ValueError (type_mismatch_msg k))
              Hnd' Hnext) as [e He].
  { by rewrite Hk. }
  destruct (merge_metadata_dict_ValueError _ _ _ He) as [msg ->]. by exists msg.
Qed.


Lemma all_str_dget d k v : all_str d = true → dget k d = Some v → ∃ s, v = PStr s.
Proof.
  induction d as [|k0 v0 rest IH]; simpl; [done|].
  destruct v0; try done. intros Hrest.
  destruct (decide (k0 = k)); [intros [= <-]; by eexists | by apply IH].
Qed.

Lemma all_str_dset d k s : all_str d = true → all_str (dset k (PStr s) d) = true.
Proof.
  induction d as [|k0 v0 rest IH]; simpl; [done|].
  destruct v0; try done. intros Hrest.
  destruct (decide (k0 = k)); simpl; auto.
Qed.

Lemma all_str_merge_items right : ∀ merged,
  all_str merged = true → all_str right = true →
  ∃ m, merge_items merged right = Ok m ∧ all_str m = true.
Proof.
  induction right as [|k0 v0 rest IH]; intros merged Hm Hr.
  - by exists merged.
  - rewrite merge_items_step. simpl in Hr. destruct v0; try done.
    destruct (dget k0 merged) as [mv|] eqn:Hk; simpl.
    + destruct (all_str_dget _ _ _ Hm Hk) as [t ->]. simpl.
      apply IH; [by apply all_str_dset | done].
    + apply IH; [by apply all_str_dset | done].
Qed.

Lemma all_str_merge (a b : option pydict) :
  oall_str a = true → oall_str b = true →
  ∃ m, merge_metadata_dict a b = Ok m ∧ oall_str m = true.
Proof.
  intros Ha Hb. unfold merge_metadata_dict.
  destruct (falsy a) eqn:Fa, (falsy b) eqn:Fb; simpl;
    [by exists None | by exists b | by exists a |].
  destruct a as [l|]; [|done]. destruct b as [r|]; [|done].
  destruct (all_str_merge_items r l Ha Hb) as (m & -> & Hm). by exists (Some m).
Qed.

Lemma merge_keys_NoDup (a b m : option pydict) :
  NoDup (okeys a) → NoDup (okeys b) →
  merge_metadata_dict a b = Ok m → NoDup (okeys m).
Proof.
  intros Ha Hb Hm. rewrite (merge_keys a b m Hb Hm).
  apply NoDup_app. split; [done|]. split.
  - intros k Hk Hin. by apply list_elem_of_filter in Hin as [Hn _].
  - by apply NoDup_filter.
Qed.

Lemma oall_str_lookup o k v : oall_str o = true → olookup k o = Some v → ∃ s, v = PStr s.
Proof. destruct o as [d|]; [apply all_str_dget | done]. Qed.

Lemma all_str_lookup (a b m : option pydict) k :
  oall_str a = true → oall_str b = true → NoDup (okeys b) →
  merge_metadata_dict a b = Ok m →
  olookup k m = join_values (olookup k a) (olookup k b).
Proof.
  intros Ha Hb Hnd Hm. pose proof (merge_lookup _ _ _ Hnd Hm k) as Hk.
  destruct (olookup k b) as [v|] eqn:Hvb.
  - destruct Hk as (x & Hx & ->).
    destruct (oall_str_lookup b k v Hb Hvb) as [t ->].
    destruct (olookup k a) as [u|] eqn:Hva.
    + destruct (oall_str_lookup a k u Ha Hva) as [s ->].
      simpl in Hx. inversion Hx. done.
    + simpl in Hx. inversion Hx. done.
  - rewrite Hk. by destruct (olookup k a) as [[]|].
Qed.

Lemma merge_None_or_entries (a b m : option pydict) :
  NoDup (okeys b) → merge_metadata_dict a b = Ok m →
  m = None ∨ okeys m ≠ [].
Proof.
  intros Hnd Hm. pose proof (merge_keys a b m Hnd Hm) as Hkeys.
  unfold merge_metadata_dict in Hm.
  destruct (falsy a) eqn:Fa, (falsy b) eqn:Fb; simpl in Hm.
  - left. congruence.
  - right. inversion Hm; subst. by destruct m as [[|]|].
  - right. inversion Hm; subst. by destruct m as [[|]|].
  - right. rewrite Hkeys. by destruct a as [[|]|].
Qed.

Lemma pydict_ext (d1 : pydict) : ∀ d2,
  NoDup (dkeys d1) → dkeys d1 = dkeys d2 →
  (∀ k, dget k d1 = dget k d2) → d1 = d2.
Proof.
  induction d1 as [|k v rest IH]; intros [|k2 v2 rest2] Hnd Hkeys Hget;
    simpl in Hkeys; try done.
  injection Hkeys as <- Hrest. apply NoDup_cons in Hnd as [Hk Hnd].
  pose proof (Hget k) as Hv. simpl in Hv. rewrite !decide_True in Hv by done.
  injection Hv as <-. f_equal. apply IH; [done..|].
  intros k'. specialize (Hget k'). simpl in Hget.
  destruct (decide (k = k')) as [<-|Hne]; [|done].
  rewrite (dget_None_keys k rest Hk). symmetry. apply dget_None_keys.
  by rewrite <- Hrest.
Qed.

Lemma append_assoc (s t u : string) : (s +:+ t) +:+ u = s +:+ (t +:+ u).
Proof.
  induction s as [|c s IH]; [done|].
  change (String c ((s +:+ t) +:+ u) = String c (s +:+ (t +:+ u))).
  by rewrite IH.
Qed.

Lemma join_values_assoc x y z :
  (∀ v, x = Some v → ∃ s, v = PStr s) →
  (∀ v, y = Some v → ∃ s, v = PStr s) →
  (∀ v, z = Some v → ∃ s, v = PStr s) →
  join_values (join_values x y) z = join_values x (join_values y z).
Proof.
  intros Hx Hy Hz.
  destruct x as [vx|]; [destruct (Hx _ eq_refl) as [sx ->]|];
  destruct y as [vy|]; try (destruct (Hy _ eq_refl) as [sy ->]);
  destruct z as [vz|]; try (destruct (Hz _ eq_refl) as [sz ->]); simpl; try done.
  by rewrite append_assoc.
Qed.

(** X4.  On dictionaries whose values are all strings the merge never
    fails and is associative: merging [a] with [b] and then with [c] gives
    the same dictionary, keys in the same order, as merging [a] with the
    merge of [b] and [c]. *)
Theorem merge_metadata_dict_assoc (a b c : option pydict) :
  oall_str a = true → oall_str b = true → oall_str c = true →
  NoDup (okeys a) → NoDup (okeys b) → NoDup (okeys c) →
  ∃ ab bc r,
    merge_metadata_dict a b = Ok ab ∧ merge_metadata_dict b c = Ok bc
    ∧ merge_metadata_dict ab c = Ok r ∧ merge_metadata_dict a bc = Ok r.
Proof.
  intros Sa Sb Sc Na Nb Nc.
  destruct (all_str_merge a b Sa Sb) as (ab & Hab & Sab).
  destruct (all_str_merge b c Sb Sc) as (bc & Hbc & Sbc).
  destruct (all_str_merge ab c Sab Sc) as (r1 & H1 & S1).
  destruct (all_str_merge a bc Sa Sbc) as (r2 & H2 & S2).
  pose proof (merge_keys_NoDup _ _ _ Na Nb Hab) as Nab.
  pose proof (merge_keys_NoDup _ _ _ Nb Nc Hbc) as Nbc.
  exists ab, bc, r1. split; [done|]. split; [done|]. split; [done|].
  rewrite H2. f_equal.
  assert (okeys r2 = okeys r1) as Hkeys.
  { rewrite (merge_keys _ _ _ Nc H1),
      (merge_keys _ _ _ Nbc H2),
      (merge_keys _ _ _ Nb Hab),
      (merge_keys _ _ _ Nc Hbc).
    rewrite filter_app, list_filter_filter, <- app_assoc. do 2 f_equal.
    apply filter_ext_elem. intros k _.
    rewrite elem_of_app, list_elem_of_filter. tauto. }
  assert (∀ k, olookup k r2 = olookup k r1) as Hget.
  { intros k.
    rewrite (all_str_lookup _ _ _ k Sab Sc Nc H1),
      (all_str_lookup _ _ _ k Sa Sbc Nbc H2),
      (all_str_lookup _ _ _ k Sa Sb Nb Hab),
      (all_str_lookup _ _ _ k Sb Sc Nc Hbc).
    symmetry. apply join_values_assoc; intros v; by apply oall_str_lookup. }
  destruct (merge_None_or_entries _ _ _ Nc H1) as [->|E1],
           (merge_None_or_entries _ _ _ Nbc H2) as [->|E2]; try done.
  destruct r1 as [d1|], r2 as [d2|]; try done. f_equal.
  apply pydict_ext; [|done|exact Hget].
  simpl in Hkeys. rewrite Hkeys. exact (merge_keys_NoDup _ _ _ Nab Nc H1).
Qed.

End MetadataMore.

(** ** Normalisation, splitting and the search lists *)

Section PyFacts.
Import Graph Text.

Lemma replace_space_cons c s :
  Py.replace " " "_" (String c s)
  = String (if decide (c = " "%char) then "_"%char else c) (Py.replace " " "_" s).
Proof.
  unfold Py.replace. cbn [Py.replace_from String.length Nat.sub].
  unfold String.prefix. fold String.prefix.
  destruct (ascii_dec " " c) as [<-|Hne].
  - rewrite decide_True by done. by destruct s.
  - rewrite decide_False by congruence. done.
Qed.

Lemma normalize_cons c s :
  normalize (String c s)
  = String (if decide (Py.lower_ascii c = " "%char) then "_"%char
            else Py.lower_ascii c) (normalize s).
Proof. unfold normalize. cbn [Py.lower]. by rewrite replace_space_cons. Qed.

Lemma lower_ascii_shape c :
  let d := if decide (Py.lower_ascii c = " "%char) then "_"%char
           else Py.lower_ascii c in
  d ≠ " "%char ∧ is_upper d = false
  ∧ (if decide (Py.lower_ascii d = " "%char) then "_"%char else Py.lower_ascii d) = d.
Proof.
  destruct c as [[] [] [] [] [] [] [] []]; vm_compute; repeat split; discriminate.
Qed.

Lemma lower_ascii_below c :
  Nat.ltb (nat_of_ascii c) 128 = true →
  Nat.ltb (nat_of_ascii (if decide (Py.lower_ascii c = " "%char) then "_"%char
                         else Py.lower_ascii c)) 128 = true.
Proof.
  destruct c as [[] [] [] [] [] [] [] []]; vm_compute; intros; congruence.
Qed.

Lemma normalize_ascii (s : string) : is_ascii s = true → is_ascii (normalize s) = true.
Proof.
  induction s as [|c s IH]; [done|]. rewrite normalize_cons. cbn [is_ascii].
  intros [Hc Hs]%andb_true_iff. apply andb_true_iff.
  split; [by apply lower_ascii_below | by apply IH].
Qed.

Lemma plain_char_below c :
  let d := if decide (Py.lower_ascii c = " "%char) then "_"%char
           else Py.lower_ascii c in
  (Neo4j.is_letter d || Neo4j.is_digit d || Neo4j.is_underscore d) = true →
  Nat.ltb (nat_of_ascii c) 128 = true.
Proof.
  destruct c as [[] [] [] [] [] [] [] []]; vm_compute; intros; congruence.
Qed.

Lemma name_rest_ascii (s : string) :
  Neo4j.name_rest (normalize s) = true → is_ascii s = true.
Proof.
  induction s as [|c s IH]; [done|]. rewrite normalize_cons.
  cbn [Neo4j.name_rest is_ascii]. intros [Hc Hs]%andb_true_iff.
  apply andb_true_iff. split; [by apply plain_char_below | by apply IH].
Qed.

(** A text whose normal form is a plain name is ASCII text: the statements
    about plain names stay where [Py.lower] is [str.lower]. *)
Lemma symbolic_name_ascii (s : string) :
  Neo4j.symbolic_name (normalize s) = true → is_ascii s = true.
Proof.
  destruct s as [|c s]; [done|]. rewrite normalize_cons.
  cbn [Neo4j.symbolic_name is_ascii]. intros [Hc Hs]%andb_true_iff.
  apply andb_true_iff. split; [|by apply name_rest_ascii].
  apply plain_char_below. simpl.
  apply orb_true_iff in Hc as [-> | ->]; [done|]. apply orb_true_r.
Qed.

(** X5.  For an ASCII name, on which [Py.lower] is [str.lower]: the normal
    form is ASCII again, it contains no space and no upper-case letter,
    and normalising it again changes nothing. *)
Theorem normalize_idempotent (s : string) :
  is_ascii s = true →
  is_ascii (normalize s) = true
  ∧ normalize (normalize s) = normalize s
  ∧ Forall (fun c => c ≠ " "%char ∧ is_upper c = false) (chars (normalize s)).
Proof.
  intros Hs. split; [by apply normalize_ascii|]. clear Hs.
  induction s as [|c s [IH1 IH2]]; [by split; [|constructor]|].
  rewrite normalize_cons. destruct (lower_ascii_shape c) as (H1 & H2 & H3).
  split.
  - rewrite normalize_cons, H3. by rewrite IH1.
  - simpl. constructor; [done | exact IH2].
Qed.

Lemma split_char_cons sep s : ∃ w ws, Py.split_char sep s = w :: ws.
Proof.
  induction s as [|c s (w & ws & IH)]; simpl; [by eexists _, _|].
  destruct (decide (c = sep)); [by eexists _, _|]. rewrite IH. by eexists _, _.
Qed.

(** X6.  [query.split(" ")] loses nothing: joining the tokens with a space
    gives the query back, no token holds a space, and there is one token
    more than there are spaces (so two spaces in a row give an empty
    token, and the empty query gives one empty token). *)
Theorem split_join (q : string) :
  join " " (Py.split_char " " q) = q
  ∧ Forall (fun w => " "%char ∉ chars w) (Py.split_char " " q)
  ∧ length (Py.split_char " " q)
    = S (length (filter (fun c => c = " "%char) (chars q))).
Proof.
  induction q as [|c q (IH1 & IH2 & IH3)].
  - split; [done|]. split; [|done]. repeat constructor. apply not_elem_of_nil.
  - simpl. destruct (split_char_cons " " q) as (w & ws & Hw).
    rewrite Hw in *. rewrite filter_cons.
    destruct (decide (c = " "%char)) as [->|Hne].
    + split; [|split].
      * change (join " " ("" :: w :: ws)) with ("" +:+ " " +:+ join " " (w :: ws)).
        by rewrite IH1.
      * constructor; [apply not_elem_of_nil | done].
      * simpl in *. lia.
    + split; [|split].
      * rewrite <- IH1. by destruct ws.
      * apply Forall_cons in IH2 as [Hw1 Hws]. constructor; [|done].
        simpl. intros Hin. apply elem_of_cons in Hin as [?|?]; [congruence|done].
      * simpl in *. lia.
Qed.

End PyFacts.

Section SearchLists.
Import Graph.



End SearchLists.

(** ** The graph memory on any store, and on the reference store *)

Section GraphMore.
Import Graph Invariants.
Context {F : Type} `{Collaborators (F := F)}.

Lemma keeps_ret {A} (I : Store → Prop) (a : A) : keeps I (ret a).
Proof. by intros w. Qed.

Lemma keeps_raise {A} (I : Store → Prop) e : keeps I (raise (A := A) e).
Proof. by intros w. Qed.

Lemma keeps_lift {A} (I : Store → Prop) (r : result A) : keeps I (lift r).
Proof. by intros w. Qed.

Lemma keeps_logger_info (I : Store → Prop) msg : keeps I (logger_info msg).
Proof. by intros w. Qed.

Lemma keeps_bind {A B} (I : Store → Prop) (m : M A) (k : A → M B) :
  keeps I m → (∀ a, keeps I (k a)) → keeps I (bind m k).
Proof.
  intros Hm Hk w Hw. unfold bind. specialize (Hm w Hw).
  destruct (m w) as [[a|e] w1]; simpl in *; [by apply Hk | done].
Qed.

Lemma keeps_for_each {A B} (I : Store → Prop) (body : A → B → M B) l :
  (∀ x acc, keeps I (body x acc)) → ∀ acc, keeps I (for_each body l acc).
Proof.
  intros Hbody. induction l as [|x l IH]; intros acc; simpl.
  - apply keeps_ret.
  - apply keeps_bind; [apply Hbody | apply IH].
Qed.

Lemma keeps_query (I : Store → Prop) (q : cypher) :
  (∀ g g' rows, I g → graph_query q g = Ok (g', rows) → I g') →
  keeps I (query q).
Proof.
  intros Hq w Hw. unfold query.
  destruct (graph_query q (graph w)) as [[g rows]|e] eqn:Hg; simpl; [|done].
  by apply (Hq (graph w) g rows).
Qed.

Lemma keeps_update_relationship (I : Store → Prop) s t r :
  keeps I (query (CheckAndCreate s t)) →
  keeps I (query (DeleteRelationships s t)) →
  keeps I (query (CreateRelationship (normalize r) s t)) →
  keeps I (_update_relationship s t r).
Proof.
  intros H1 H2 H3. unfold _update_relationship.
  apply keeps_bind; [apply keeps_logger_info|]. intros _.
  apply keeps_bind; [apply H1|]. intros _.
  apply keeps_bind; [apply H2|]. intros _.
  apply keeps_bind; [apply H3|]. intros [|]; [apply keeps_raise | apply keeps_ret].
Qed.

Lemma keeps_search_ (I : Store → Prop) self q :
  (∀ e th, keeps I (query (SimilarityQuery e th))) → keeps I (_search self q).
Proof.
  intros Hq. unfold _search.
  apply keeps_bind; [apply keeps_lift|]. intros calls.
  apply keeps_bind; [apply keeps_lift|]. intros [nodes rels].
  apply keeps_for_each. intros node acc.
  apply keeps_bind; [apply keeps_lift|]. intros e.
  apply keeps_bind; [apply Hq|]. intros ans. apply keeps_ret.
Qed.

Lemma keeps_search (I : Store → Prop) self q :
  (∀ e th, keeps I (query (SimilarityQuery e th))) → keeps I (search self q).
Proof.
  intros Hq. unfold search.
  apply keeps_bind; [by apply keeps_search_|]. intros [|row rows]; [apply keeps_ret|].
  apply keeps_bind; [apply keeps_lift|]. intros docs.
  apply keeps_bind; [apply keeps_lift|]. intros top.
  apply keeps_bind; [apply keeps_logger_info|]. intros _. apply keeps_ret.
Qed.

Lemma keeps_get_all (I : Store → Prop) :
  keeps I (query MatchAll) → keeps I get_all.
Proof.
  intros Hq. unfold get_all.
  apply keeps_bind; [apply Hq|]. intros rows.
  apply keeps_bind; [apply keeps_lift|]. intros res.
  apply keeps_bind; [apply keeps_logger_info|]. intros _. apply keeps_ret.
Qed.

Lemma keeps_bind_lift {A B} (I : Store → Prop) (r : result A) (k : A → M B) :
  (∀ a, r = Ok a → keeps I (k a)) → keeps I (bind (lift r) k).
Proof.
  intros Hk w Hw. unfold bind, lift. destruct r as [a|e]; [by apply Hk | done].
Qed.

Lemma keeps_bind_ok {A B} (I : Store → Prop) (m : M A) (k : A → M B) :
  keeps I m → (∀ a, (∃ w w1, m w = (Ok a, w1)) → keeps I (k a)) →
  keeps I (bind m k).
Proof.
  intros Hm Hk w Hw. unfold bind. specialize (Hm w Hw).
  destruct (m w) as [[a|e] w1] eqn:Hmw; simpl in *; [|done].
  apply Hk; [by exists w, w1 | done].
Qed.

Lemma keeps_for_each_in {A B} (I : Store → Prop) (body : A → B → M B) l :
  (∀ x acc, x ∈ l → keeps I (body x acc)) → ∀ acc, keeps I (for_each body l acc).
Proof.
  induction l as [|x l IH]; intros Hbody acc; simpl.
  - apply keeps_ret.
  - apply keeps_bind; [apply Hbody; left|].
    intros acc'. apply IH. intros y acc'' Hy. apply Hbody. by right.
Qed.

Lemma result_map_ok {A B} (f : A → B) (r : result A) b :
  result_map f r = Ok b → ∃ a, r = Ok a ∧ b = f a.
Proof. destruct r as [a|e]; simpl; [|done]. intros [= <-]. by exists a. Qed.

(** A tool call keeps [I] when the replacement that it may ask for does. *)
Lemma keeps_dispatch (I : Store → Prop) item acc :
  (∀ s t r, field (args item) "relationship" = Ok r →
     keeps I (_update_relationship s t r)) →
  keeps I (dispatch item acc).
Proof.
  intros Hu. unfold dispatch.
  destruct (decide (name item = "add_graph_memory")); [apply keeps_ret|].
  destruct (decide (name item = "update_graph_memory")).
  { apply keeps_bind_lift. intros s _.
    apply keeps_bind_lift. intros t _.
    apply keeps_bind_lift. intros r Hr.
    apply keeps_bind; [by apply Hu|]. intros _. apply keeps_ret. }
  destruct (decide (name item = "noop")); apply keeps_ret.
Qed.

(** An insertion keeps [I] when its statement does, for the types and the
    relationship of the item. *)
Lemma keeps_insert_triple (I : Store → Prop) item :
  (∀ st dt ty s d se de,
     field item "source_type" = Ok st → field item "destination_type" = Ok dt →
     field item "relationship" = Ok ty →
     keeps I (query (MergeTriple (normalize st) (normalize dt) (normalize ty)
                       s d se de))) →
  keeps I (insert_triple item).
Proof.
  intros Hq. unfold insert_triple.
  apply keeps_bind_lift. intros s _.
  apply keeps_bind_lift. intros st' Hst. apply result_map_ok in Hst as (st & Hst & ->).
  apply keeps_bind_lift. intros ty' Hty. apply result_map_ok in Hty as (ty & Hty & ->).
  apply keeps_bind_lift. intros d _.
  apply keeps_bind_lift. intros dt' Hdt. apply result_map_ok in Hdt as (dt & Hdt & ->).
  apply keeps_bind_lift. intros se _.
  apply keeps_bind_lift. intros de _.
  apply keeps_bind; [by apply Hq|]. intros _. apply keeps_ret.
Qed.

(** [add] keeps [I] when the similarity query does and when, for every tool
    call of a reconciliation answer, the replacement and the insertion that
    the call may ask for do. *)
Lemma keeps_add (I : Store → Prop) self data :
  (∀ e th, keeps I (query (SimilarityQuery e th))) →
  (∀ messages calls c,
     generate_response messages
       [UPDATE_MEMORY_TOOL_GRAPH; ADD_MEMORY_TOOL_GRAPH; NOOP_TOOL] = Ok calls →
     c ∈ calls →
     (∀ s t r, field (args c) "relationship" = Ok r →
        keeps I (_update_relationship s t r))
     ∧ keeps I (insert_triple (args c))) →
  keeps I (add self data).
Proof.
  intros Hs Hcalls. unfold add.
  apply keeps_bind; [by apply keeps_search_|]. intros rows.
  do 3 (apply keeps_bind; [apply keeps_lift|]; intros ?).
  apply keeps_bind_lift. intros updates Hupdates.
  apply keeps_bind_ok.
  { apply keeps_for_each_in. intros c acc Hc. apply keeps_dispatch.
    by apply (Hcalls _ _ c Hupdates). }
  intros tba (w & w1 & Htba).
  apply for_each_dispatch_queue in Htba. simpl in Htba. subst tba.
  apply keeps_bind; [|intros _; apply keeps_logger_info].
  apply keeps_for_each_in. intros item _ Hitem.
  apply list_elem_of_fmap in Hitem as (c & -> & Hc).
  apply list_elem_of_filter in Hc as [_ Hc].
  by apply (Hcalls _ _ c Hupdates).
Qed.

(** *** Edge cases of [add] and [search] *)

(** X8.  With [self.user_id] still [None], as [__init__] leaves it, [add]
    raises the [TypeError] of [str.replace] once the search has returned:
    the store and the log are the ones the search left, and nothing is
    written. *)
Theorem add_without_user_id (self : memory_graph) (data : string) (w : world)
    rows w1 :
  user_id self = None →
  _search self data w = (Ok rows, w1) →
  add self data w
  = (Raise (TypeError "replace() argument 2 must be str, not None"), w1).
Proof.
  intros Hu Hs. unfold add, bind at 1. rewrite Hs.
  unfold bind, lift, extraction_prompt. by rewrite Hu.
Qed.



(** X10.  The three statements of a replacement are not one transaction:
    when the creation raises, [_update_relationship] raises the same
    error and the store stays as the deletion left it. *)
Theorem update_relationship_failed_creation (source target relationship : string)
    (w : world) g1 r1 g2 r2 e :
  graph_query (CheckAndCreate source target) (graph w) = Ok (g1, r1) →
  graph_query (DeleteRelationships source target) g1 = Ok (g2, r2) →
  graph_query (CreateRelationship (normalize relationship) source target) g2
    = Raise e →
  ∃ line,
    _update_relationship source target relationship w
    = (Raise e, {| graph := g2; log := log w ++ [line] |}).
Proof.
  intros H1 H2 H3. eexists.
  unfold _update_relationship, bind, logger_info, query. simpl.
  rewrite H1. simpl. rewrite H2. simpl. by rewrite H3.
Qed.

(** X11.  [search] returns normally, with [min(5, len(rows))] results and
    one more log line, whenever [_search] returns rows that all have the
    columns [source], [relation] and [destination] and the BM25 ranking is
    a permutation of the document indices. *)
Theorem search_returns (self : memory_graph) (q : string) (w : world) rows w1 :
  _search self q w = (Ok rows, w1) →
  rows ≠ [] →
  (∀ item, item ∈ rows →
     is_Some (item !! "source") ∧ is_Some (item !! "relation")
     ∧ is_Some (item !! "destination")) →
  (∀ corpus tokens, bm25_ranking corpus tokens ≡ₚ seq 0 (length corpus)) →
  ∃ res,
    search self q w
    = (Ok res, {| graph := graph w1; log := log w1 ++ [returned_msg (length res)] |})
    ∧ length res = 5 `min` length rows.
Proof. apply search_runs. Qed.

End GraphMore.

Section StoreMore.
Import Graph Neo4j Invariants.
Context {F : Type}.
Context (similar : @pgraph F → list F → F → list (row F))
        (spliced : @cypher F → @pgraph F → result (@pgraph F * list (row F)))
        (embed_text : string → result (list F))
        (llm : list message → list tool → result (list tool_call))
        (prompt : string)
        (update_messages : list (row F) → list (gmap string string) → list message)
        (ranking : list (list (@cell F)) → list string → list nat).

Local Abbreviation C :=
  (collaborators similar spliced embed_text llm prompt update_messages ranking).

Implicit Types (g : @pgraph F).

(** *** Reading never writes *)

Lemma keeps_similarity (I : @pgraph F → Prop) e th :
  keeps (H := C) I (query (SimilarityQuery e th)).
Proof. apply keeps_query. simpl. by intros g g' rows Hg [= <- _]. Qed.

Lemma keeps_match_all (I : @pgraph F → Prop) :
  keeps (H := C) I (query MatchAll).
Proof. apply keeps_query. simpl. by intros g g' rows Hg [= <- _]. Qed.

(** X12.  On the reference store, [_search], [search] and [get_all] leave
    the store exactly as it was, whether they return or raise. *)
Theorem reading_keeps_store (self : memory_graph) (q : string) (w : @world F C) :
  graph (_search (H := C) self q w).2 = graph w
  ∧ graph (search (H := C) self q w).2 = graph w
  ∧ graph (get_all (H := C) w).2 = graph w.
Proof.
  split; [|split].
  - apply (keeps_search_ (H := C) (fun g => g = graph w)); [|done].
    intros. apply keeps_similarity.
  - apply (keeps_search (H := C) (fun g => g = graph w)); [|done].
    intros. apply keeps_similarity.
  - apply (keeps_get_all (H := C) (fun g => g = graph w)); [|done].
    apply keeps_match_all.
Qed.

(** *** One store extends another *)

Lemma extends_refl g : extends g g.
Proof. intros id n Hn. by exists n. Qed.

Lemma extends_trans g0 g1 g2 : extends g0 g1 → extends g1 g2 → extends g0 g2.
Proof.
  intros H01 H12 id n Hn. destruct (H01 id n Hn) as (n1 & Hn1 & Hl1 & Hm1).
  destruct (H12 id n1 Hn1) as (n2 & Hn2 & Hl2 & Hm2).
  exists n2. split; [done|]. split; congruence.
Qed.

Lemma extends_nodes g g' : nodes g' = nodes g → extends g g'.
Proof. intros Hn id n Hid. exists n. by rewrite Hn. Qed.

Lemma extends_add_node g n : extends g (add_node n g).
Proof.
  intros id m Hm. exists m. split; [|done].
  unfold add_node. simpl. rewrite lookup_insert_ne; [done|].
  intros <-. apply (is_fresh (dom (nodes g))). apply elem_of_dom. by eexists.
Qed.

Lemma extends_merge_bare g s : extends g (merge_bare s g).
Proof.
  unfold merge_bare.
  destruct (named s g) as [|x xs]; [apply extends_add_node | apply extends_refl].
Qed.

Lemma extends_merge_typed g l s e : extends g (merge_typed l s e g).
Proof.
  unfold merge_typed. destruct (matching (has_label_name l s) g) as [|x xs];
    [apply extends_add_node|].
  intros id n Hn. simpl. rewrite lookup_fmap, Hn. simpl.
  eexists. split; [done|]. by destruct (has_label_name l s n).
Qed.

Lemma merge_rels_nodes ty (pairs : list (nat * nat)) :
  ∀ (acc : pgraph * list (row F)),
    nodes (fold_left (merge_rel ty) pairs acc).1 = nodes acc.1.
Proof.
  induction pairs as [|p pairs IH]; intros acc; simpl; [done|].
  rewrite IH. unfold merge_rel.
  by destruct (filter _ (rels acc.1)).
Qed.

(** *** Plain statements and plain tool calls *)

Lemma keeps_statement (I : @pgraph F → Prop) (q : @cypher F) :
  plain q = true → (∀ g, I g → I (statement similar q g).1) →
  keeps (H := C) I (query q).
Proof.
  intros Hq HI. apply keeps_query. intros g g' rows Hg Hrun. simpl in Hrun.
  rewrite (run_plain similar spliced q g Hq) in Hrun.
  injection Hrun as Hrun. specialize (HI g Hg). by rewrite Hrun in HI.
Qed.


Lemma plain_field_ok (a : arguments) key v :
  plain_field a key = true → field a key = Ok v →
  symbolic_name (normalize v) = true.
Proof. unfold plain_field. intros Hp Hf. by rewrite Hf in Hp. Qed.

Lemma plain_args_fields (a : arguments) :
  plain_args a = true →
  plain_field a "source_type" = true ∧ plain_field a "destination_type" = true
  ∧ plain_field a "relationship" = true.
Proof.
  unfold plain_args. intros Hp.
  apply andb_true_iff in Hp as [Hp Hr]. by apply andb_true_iff in Hp as [Hs Hd].
Qed.

Lemma plain_args_merge (item : arguments) st dt ty s d (se de : list F) :
  plain_args item = true →
  field item "source_type" = Ok st → field item "destination_type" = Ok dt →
  field item "relationship" = Ok ty →
  plain (MergeTriple (normalize st) (normalize dt) (normalize ty) s d se de) = true.
Proof.
  intros Hp Hst Hdt Hty. apply plain_args_fields in Hp as (Ps & Pd & Pr). simpl.
  by rewrite (plain_field_ok _ _ _ Ps Hst), (plain_field_ok _ _ _ Pd Hdt),
    (plain_field_ok _ _ _ Pr Hty).
Qed.

(** The insertion of plain arguments keeps what its statement keeps. *)
Lemma keeps_insert_plain (I : @pgraph F → Prop) (item : arguments) :
  plain_args item = true →
  (∀ st dt ty s d se de g, I g → I (merge_triple st dt ty s d se de g).1) →
  keeps (H := C) I (insert_triple item).
Proof.
  intros Hp HI. apply keeps_insert_triple. intros st dt ty s d se de Hst Hdt Hty.
  apply keeps_statement; [by apply (plain_args_merge item)|].
  intros g. apply HI.
Qed.

(** [add] keeps what the replacements and the insertions keep, when the
    model answers with plain calls. *)
Lemma keeps_add_plain (I : @pgraph F → Prop) self data :
  plain_answers llm →
  (∀ s t r, symbolic_name (normalize r) = true →
     keeps (H := C) I (_update_relationship s t r)) →
  (∀ st dt ty s d se de g, I g → I (merge_triple st dt ty s d se de g).1) →
  keeps (H := C) I (add self data).
Proof.
  intros Hllm Hu Hm. apply keeps_add.
  - intros. apply keeps_similarity.
  - intros messages calls c Hcalls Hc. simpl in Hcalls.
    pose proof (proj1 (Forall_forall _ _) (Hllm _ _ Hcalls) c Hc) as Hp.
    split.
    + intros s t r Hr. apply Hu.
      apply plain_args_fields in Hp as (_ & _ & Pr).
      by apply (plain_field_ok _ _ _ Pr).
    + by apply keeps_insert_plain.
Qed.

(** A replacement with a plain relationship keeps what its three
    statements keep. *)
Lemma keeps_update_plain (I : @pgraph F → Prop) s t r :
  symbolic_name (normalize r) = true →
  (∀ q g, q ≠ DetachDeleteAll → I g → I (statement similar q g).1) →
  keeps (H := C) I (_update_relationship s t r).
Proof.
  intros Hr HI.
  apply keeps_update_relationship; (apply keeps_statement; [done|]);
    intros g; by apply HI.
Qed.

(** *** Nodes are never removed, renamed or relabelled *)

Lemma extends_statement (q : @cypher F) g :
  q ≠ DetachDeleteAll → extends g (statement similar q g).1.
Proof.
  intros Hq. destruct q; simpl; try done.
  - eapply extends_trans; apply extends_merge_bare.
  - by apply extends_nodes.
  - apply extends_nodes. unfold create_between. apply create_rels_nodes.
  - unfold merge_triple.
    eapply extends_trans; [apply (extends_merge_typed g source_type source_name source_embedding)|].
    eapply extends_trans; [apply (extends_merge_typed _ destination_type dest_name dest_embedding)|].
    apply extends_nodes. apply merge_rels_nodes.
  - apply extends_refl.
  - apply extends_refl.
Qed.

Lemma extends_step g0 (q : @cypher F) g :
  q ≠ DetachDeleteAll → extends g0 g → extends g0 (statement similar q g).1.
Proof.
  intros Hq Hg. eapply extends_trans; [exact Hg|]. by apply extends_statement.
Qed.

(** X13.  When the texts that they splice are plain names, [add] and
    [_update_relationship] never remove, rename or relabel a node: every
    node of the store before the call is still there after it, with its
    labels and its name, whatever the outcome.  For [add] the spliced
    texts are the types and relationships of the reconciliation answer,
    for [_update_relationship] the relationship [r]. *)
Theorem writing_keeps_nodes (self : memory_graph) (data s t r : string)
    (w : @world F C) :
  plain_answers llm →
  symbolic_name (normalize r) = true →
  extends (graph w) (graph (add (H := C) self data w).2)
  ∧ extends (graph w) (graph (_update_relationship (H := C) s t r w).2).
Proof.
  intros Hllm Hr.
  assert (∀ s t r, symbolic_name (normalize r) = true →
            keeps (H := C) (extends (graph w)) (_update_relationship s t r)) as Hu.
  { intros s' t' r' Hr'. apply keeps_update_plain; [done|].
    intros q g. apply extends_step. }
  split.
  - apply (keeps_add_plain (extends (graph w))); [done|exact Hu| |apply extends_refl].
    intros st dt ty s' d se de g.
    by apply (extends_step (graph w) (MergeTriple st dt ty s' d se de)).
  - apply Hu; [done|apply extends_refl].
Qed.

(** *** What a replacement leaves alone *)

Lemma update_relationship_store s t r (w : @world F C) :
  symbolic_name (normalize r) = true →
  graph (_update_relationship (H := C) s t r w).2
  = (create_between (normalize r) s t
       (delete_between s t (merge_bare t (merge_bare s (graph w))))).1.
Proof.
  intros Hr. unfold _update_relationship, bind, logger_info, query. simpl.
  unfold run. simpl. rewrite Hr. simpl.
  destruct (create_between _ _ _ _) as [g3 [|row0 rows]]; done.
Qed.

Lemma types_between_merge_bare g s a b :
  types_between (merge_bare s g) a b = types_between g a b.
Proof. unfold merge_bare. by destruct (named s g). Qed.

Lemma delete_between_other g s t a b :
  ¬ (node_named g s a ∧ node_named g t b) →
  types_between (delete_between s t g) a b = types_between g a b.
Proof.
  intros Hnot. unfold types_between, delete_between. simpl. f_equal.
  rewrite list_filter_filter. apply list_filter_iff. intros r. split; [tauto|].
  intros [Hsrc Hdst]. split; [done|].
  destruct (joins_names g s t r) eqn:Hj; [|done]. destruct Hnot.
  unfold joins_names in Hj. rewrite Hsrc, Hdst in Hj.
  destruct (nodes g !! a) as [n|] eqn:Hn; [|done].
  destruct (nodes g !! b) as [m|] eqn:Hm; [|done].
  apply andb_true_iff in Hj as [Hs Ht]. unfold has_name in *.
  apply bool_decide_eq_true in Hs, Ht.
  split; [by exists n | by exists m].
Qed.

Lemma create_between_other g ty s t a b :
  ¬ (node_named g s a ∧ node_named g t b) →
  types_between (create_between ty s t g).1 a b = types_between g a b.
Proof.
  intros Hnot. unfold create_between. rewrite create_rels_types. simpl.
  rewrite occ_list_prod.
  assert (a ∉ named s g ∨ b ∉ named t g) as [Ha|Hb].
  { destruct (decide (a ∈ named s g)) as [Ha|]; [|by left].
    right. intros Hb. apply Hnot. by rewrite <- !elem_of_named. }
  - rewrite (occ_absent a) by done. simpl. by rewrite app_nil_r.
  - rewrite (occ_absent b) by done. rewrite Nat.mul_0_r. simpl.
    by rewrite app_nil_r.
Qed.

Lemma create_between_nodes g ty s t : nodes (create_between ty s t g).1 = nodes g.
Proof. unfold create_between. by rewrite create_rels_nodes. Qed.

(** X14.  A replacement between [s] and [t] with a plain relationship
    touches no other pair: for nodes [a] and [b] that are not a node named
    [s] and a node named [t], the relationships from [a] to [b] are the
    same after the call as before. *)
Theorem update_relationship_frame (s t r : string) (w : @world F C) (a b : nat) :
  symbolic_name (normalize r) = true →
  ¬ (node_named (graph (_update_relationship (H := C) s t r w).2) s a
     ∧ node_named (graph (_update_relationship (H := C) s t r w).2) t b) →
  types_between (graph (_update_relationship (H := C) s t r w).2) a b
  = types_between (graph w) a b.
Proof.
  intros Hr. rewrite update_relationship_store by done.
  set (g1 := merge_bare t (merge_bare s (graph w))).
  assert (types_between g1 a b = types_between (graph w) a b) as <-.
  { unfold g1. by rewrite !types_between_merge_bare. }
  intros Hnot.
  assert (¬ (node_named g1 s a ∧ node_named g1 t b)) as Hnot1.
  { intros [Ha Hb]. apply Hnot.
    split; apply (node_named_nodes g1); try done;
      by rewrite create_between_nodes. }
  rewrite create_between_other; [by apply delete_between_other|].
  intros [Ha Hb]. apply Hnot1. split; by apply (node_named_nodes g1 (delete_between s t g1)).
Qed.

(** *** What [get_all] lists *)

Lemma comprehension_id {A} (f : A → result A) (l : list A) :
  (∀ x, x ∈ l → f x = Ok x) → comprehension f l = Ok l.
Proof.
  induction l as [|x l IH]; intros Hf; simpl; [done|].
  rewrite Hf by left. rewrite IH; [done|]. intros y Hy. apply Hf. by right.
Qed.

Lemma elem_of_all_rows g (e : row F) :
  e ∈ rels g ≫= all_row g ↔
  ∃ r a b, r ∈ rels g ∧ nodes g !! rsrc r = Some a ∧ nodes g !! rdst r = Some b
           ∧ e = triple_entry (node_name a) (rtype r) (node_name b).
Proof.
  rewrite list_elem_of_bind. split.
  - intros (r & He & Hr). unfold all_row in He.
    destruct (nodes g !! rsrc r) as [a|] eqn:Ha; [|by apply elem_of_nil in He].
    destruct (nodes g !! rdst r) as [b|] eqn:Hb; [|by apply elem_of_nil in He].
    apply list_elem_of_singleton in He. by exists r, a, b.
  - intros (r & a & b & Hr & Ha & Hb & ->). exists r. split; [|done].
    unfold all_row. rewrite Ha, Hb. by apply list_elem_of_singleton.
Qed.

Lemma get_all_run (w : @world F C) :
  get_all (H := C) w
  = (Ok (rels (graph w) ≫= all_row (graph w)),
     {| graph := graph w;
        log := log w ++ [retrieved_msg (length (rels (graph w) ≫= all_row (graph w)))] |}).
Proof.
  unfold get_all, bind, query, lift, logger_info, ret. simpl.
  rewrite comprehension_id; [done|].
  intros e He. apply elem_of_all_rows in He as (r & a & b & _ & _ & _ & ->).
  reflexivity.
Qed.

Lemma holds_listed g s ty d :
  holds g s ty d ↔ triple_entry s ty d ∈ rels g ≫= all_row g.
Proof.
  rewrite elem_of_all_rows. unfold holds. split.
  - intros (r & a & b & Hr & Ha & Hb & <- & <- & <-). by exists r, a, b.
  - intros (r & a & b & Hr & Ha & Hb & He). exists r, a, b.
    split; [done|]. split; [done|]. split; [done|].
    pose proof (f_equal (fun m : row F => m !! "source") He) as H1.
    pose proof (f_equal (fun m : row F => m !! "relationship") He) as H2.
    pose proof (f_equal (fun m : row F => m !! "target") He) as H3.
    vm_compute in H1, H2, H3.
    by inversion H1; inversion H2; inversion H3.
Qed.

Lemma types_between_single g a b ty :
  types_between g a b = [ty] →
  ∃ r, r ∈ rels g ∧ rsrc r = a ∧ rdst r = b ∧ rtype r = ty.
Proof.
  unfold types_between. intros Hty.
  destruct (filter (fun r => rsrc r = a ∧ rdst r = b) (rels g)) as [|r l] eqn:Hf;
    [done|].
  assert (r ∈ filter (fun r => rsrc r = a ∧ rdst r = b) (rels g)) as Hr
    by (rewrite Hf; left).
  apply list_elem_of_filter in Hr as [[Ha Hb] Hr]. exists r.
  inversion Hty. done.
Qed.

(** X15.  A replacement with a plain relationship returns normally, and
    [get_all] after it returns normally and lists the triple of the
    source, the normalised relationship and the target. *)
Theorem replaced_is_listed (s t r : string) (w : @world F C) :
  symbolic_name (normalize r) = true →
  ∃ w' entries w'',
    _update_relationship (H := C) s t r w = (Ok tt, w')
    ∧ get_all (H := C) w' = (Ok entries, w'')
    ∧ triple_entry s (normalize r) t ∈ entries.
Proof.
  intros Hr.
  destruct (update_relationship_returns similar spliced embed_text llm prompt
              update_messages ranking s t r w Hr) as [w' Hu].
  exists w'. rewrite get_all_run. eexists _, _. split; [done|]. split; [done|].
  apply holds_listed.
  destruct (update_relationship_replaces similar spliced embed_text llm prompt
              update_messages ranking s t r w w' Hr Hu) as [(a & b & Ha & Hb) Hone].
  destruct (types_between_single _ _ _ _ (Hone a b Ha Hb))
    as (x & Hx & Hsrc & Hdst & Hty).
  destruct Ha as (na & Hna & Hsa). destruct Hb as (nb & Hnb & Htb).
  exists x, na, nb. rewrite Hsrc, Hdst. done.
Qed.

(** *** What an insertion adds *)

















(** *** No parallel relationships of one type *)

Lemma NoDup_list_prod (l1 l2 : list nat) :
  NoDup l1 → NoDup l2 → NoDup (list_prod l1 l2).
Proof.
  intros H1 H2. induction H1 as [|x l1 Hx H1 IH]; simpl; [constructor|].
  apply NoDup_app. split; [|split; [|done]].
  - change (map (fun y => (x, y)) l2) with (pair x <$> l2).
    apply NoDup_fmap_2_strong; [|done]. by intros y z _ _ [= ->].
  - intros [a b] Hab Hin.
    apply list_elem_of_In, in_map_iff in Hab as (y & [= <- <-] & _).
    apply list_elem_of_In, in_prod_iff in Hin as [Hin _].
    by apply list_elem_of_In in Hin.
Qed.

Lemma create_rels_keys ty (pairs : list (nat * nat)) :
  ∀ (acc : pgraph * list (row F)),
    rel_key <$> rels (fold_left (create_rel ty) pairs acc).1
    = (rel_key <$> rels acc.1) ++ ((fun p => (p.1, ty, p.2)) <$> pairs).
Proof.
  induction pairs as [|p pairs IH]; intros acc; simpl.
  - by rewrite app_nil_r.
  - rewrite IH. simpl. rewrite fmap_app, <- app_assoc. done.
Qed.

Lemma simple_delete_between g s t : simple g → simple (delete_between s t g).
Proof.
  unfold simple, delete_between. simpl. intros Hg.
  eapply sublist_NoDup; [exact Hg|]. apply fmap_sublist, sublist_filter.
Qed.

Lemma simple_rels g g' : rels g' = rels g → simple g → simple g'.
Proof. unfold simple. by intros ->. Qed.

Lemma simple_replace g ty s t :
  simple g → simple (create_between ty s t (delete_between s t g)).1.
Proof.
  intros Hg. unfold simple, create_between. rewrite create_rels_keys.
  set (g2 := delete_between s t g).
  apply NoDup_app. split; [by apply simple_delete_between|]. split.
  - intros k Hk Hnew.
    apply list_elem_of_fmap in Hk as (r & -> & Hr).
    apply list_elem_of_fmap in Hnew as ([a b] & Hkey & Hab).
    apply list_elem_of_In, in_prod_iff in Hab as [Ha Hb].
    apply list_elem_of_In, elem_of_named in Ha, Hb.
    destruct Ha as (na & Hna & Hsa). destruct Hb as (nb & Hnb & Htb).
    unfold rel_key in Hkey. simpl in Hkey. injection Hkey as Hsrc _ Hdst.
    simpl in Hr. apply list_elem_of_filter in Hr as [Hj _].
    unfold joins_names in Hj. simpl in Hna, Hnb.
    rewrite Hsrc, Hdst, Hna, Hnb in Hj. unfold has_name in Hj.
    rewrite !bool_decide_eq_true_2 in Hj by done. discriminate.
  - apply NoDup_fmap_2_strong.
    + intros [a b] [a' b'] _ _ [= -> ->]. done.
    + apply NoDup_list_prod; apply NoDup_matching.
Qed.

Lemma simple_merge_rel ty (acc : pgraph * list (row F)) p :
  simple acc.1 → simple (merge_rel ty acc p).1.
Proof.
  unfold simple, merge_rel. intros Hs.
  destruct (filter (fun r => rsrc r = p.1 ∧ rtype r = ty ∧ rdst r = p.2)
              (rels acc.1)) as [|r0 l] eqn:Hf; simpl; [|done].
  rewrite fmap_app. apply NoDup_app. split; [done|]. split.
  - intros k Hk Hnew. apply list_elem_of_singleton in Hnew. subst k.
    apply list_elem_of_fmap in Hk as (r & Hkey & Hr).
    assert (r ∈ filter (fun r => rsrc r = p.1 ∧ rtype r = ty ∧ rdst r = p.2)
                  (rels acc.1)) as Hin.
    { apply list_elem_of_filter. split; [|done].
      unfold rel_key in Hkey. simpl in Hkey. by injection Hkey as -> -> ->. }
    rewrite Hf in Hin. by apply elem_of_nil in Hin.
  - apply NoDup_singleton.
Qed.

Lemma simple_merge_rels ty (pairs : list (nat * nat)) :
  ∀ (acc : pgraph * list (row F)),
    simple acc.1 → simple (fold_left (merge_rel ty) pairs acc).1.
Proof.
  induction pairs as [|p pairs IH]; intros acc Hs; simpl; [done|].
  apply IH. by apply simple_merge_rel.
Qed.

Lemma rels_merge_typed g l s e : rels (merge_typed l s e g) = rels g.
Proof. unfold merge_typed. by destruct (matching _ g). Qed.

Lemma rels_merge_bare g s : rels (merge_bare s g) = rels g.
Proof. unfold merge_bare. by destruct (named s g). Qed.

Lemma simple_merge_triple st dt ty s d se de g :
  simple g → simple (merge_triple st dt ty s d se de g).1.
Proof.
  intros Hg. unfold merge_triple. apply simple_merge_rels. simpl.
  eapply simple_rels; [|exact Hg]. by rewrite !rels_merge_typed.
Qed.

Lemma keeps_simple_update s t r :
  symbolic_name (normalize r) = true →
  keeps (H := C) simple (_update_relationship s t r).
Proof.
  intros Hr w Hw. rewrite update_relationship_store by done.
  apply simple_replace.
  eapply simple_rels; [|exact Hw]. by rewrite !rels_merge_bare.
Qed.

(** X17.  When the texts that they splice are plain names: if no two
    relationships of the store have the same end nodes and type, this is
    still so after [add] and after [_update_relationship], whatever the
    outcome. *)
Theorem writing_keeps_simple (self : memory_graph) (data s t r : string)
    (w : @world F C) :
  plain_answers llm →
  symbolic_name (normalize r) = true →
  simple (graph w) →
  simple (graph (add (H := C) self data w).2)
  ∧ simple (graph (_update_relationship (H := C) s t r w).2).
Proof.
  intros Hllm Hr Hw. split; [|by apply keeps_simple_update].
  apply (keeps_add_plain simple); [done| | |done].
  - intros. by apply keeps_simple_update.
  - intros. by apply simple_merge_triple.
Qed.

(** *** Embeddings follow the names *)


Lemma has_label_name_true l s (n : @node F) :
  has_label_name l s n = true ↔ l ∈ labels n ∧ node_name n = s.
Proof.
  unfold has_label_name. rewrite andb_true_iff, !bool_decide_eq_true. done.
Qed.









(** *** One node for a label and a name *)

Lemma add_node_origin g (m : @node F) id n :
  nodes (add_node m g) !! id = Some n →
  (id = fresh (dom (nodes g)) ∧ n = m) ∨ nodes g !! id = Some n.
Proof.
  unfold add_node. simpl.
  destruct (decide (fresh (dom (nodes g)) = id)) as [<-|Hne].
  - rewrite lookup_insert_eq. intros [= <-]. by left.
  - rewrite lookup_insert_ne by done. by right.
Qed.

Lemma typed_unique_add_node g (m : @node F) :
  (∀ l, l ∈ labels m → matching (has_label_name l (node_name m)) g = []) →
  typed_unique g → typed_unique (add_node m g).
Proof.
  intros Hnew Hg l s a b Ha Hb.
  apply elem_of_matching in Ha as (na & Hna & Hpa).
  apply elem_of_matching in Hb as (nb & Hnb & Hpb).
  assert (∀ id n, nodes g !! id = Some n → has_label_name l s n = true →
            ¬ (has_label_name l s m = true)) as Hold.
  { intros id n Hn Hp Hm. apply has_label_name_true in Hm as [Hl <-].
    assert (id ∈ matching (has_label_name l (node_name m)) g) as Hin
      by (apply elem_of_matching; by exists n).
    rewrite (Hnew l Hl) in Hin. by apply elem_of_nil in Hin. }
  apply add_node_origin in Hna as [[-> ->]|Hna];
    apply add_node_origin in Hnb as [[-> ->]|Hnb]; try done.
  - by destruct (Hold _ _ Hnb Hpb).
  - by destruct (Hold _ _ Hna Hpa).
  - apply (Hg l s); apply elem_of_matching; by eexists.
Qed.

Lemma typed_unique_merge_bare g s : typed_unique g → typed_unique (merge_bare s g).
Proof.
  intros Hg. unfold merge_bare. destruct (named s g) as [|x xs]; [|done].
  apply typed_unique_add_node; [|done]. simpl. intros l Hl.
  by apply elem_of_nil in Hl.
Qed.

Lemma typed_unique_merge_typed g l s e :
  typed_unique g → typed_unique (merge_typed l s e g).
Proof.
  intros Hg. unfold merge_typed.
  destruct (matching (has_label_name l s) g) as [|x xs] eqn:Hm.
  - apply typed_unique_add_node; [|done]. simpl. intros l' Hl'.
    apply list_elem_of_singleton in Hl'. by subst l'.
  - intros l' s' a b Ha Hb.
    apply elem_of_matching in Ha as (na & Hna & Hpa).
    apply elem_of_matching in Hb as (nb & Hnb & Hpb).
    simpl in Hna, Hnb. rewrite lookup_fmap in Hna, Hnb.
    destruct (nodes g !! a) as [na0|] eqn:Ha0; [|done].
    destruct (nodes g !! b) as [nb0|] eqn:Hb0; [|done].
    simpl in Hna, Hnb. injection Hna as <-. injection Hnb as <-.
    apply (Hg l' s'); apply elem_of_matching; eexists; (split; [done|]).
    + rewrite <- Hpa. by destruct (has_label_name l s na0).
    + rewrite <- Hpb. by destruct (has_label_name l s nb0).
Qed.

Lemma typed_unique_nodes g g' : nodes g' = nodes g → typed_unique g → typed_unique g'.
Proof. unfold typed_unique, matching. by intros ->. Qed.

Lemma typed_unique_statement (q : @cypher F) g :
  typed_unique g → typed_unique (statement similar q g).1.
Proof.
  intros Hg. destruct q; simpl.
  - by do 2 apply typed_unique_merge_bare.
  - by eapply typed_unique_nodes.
  - eapply typed_unique_nodes; [|exact Hg]. apply create_between_nodes.
  - unfold merge_triple.
    eapply typed_unique_nodes; [apply merge_rels_nodes|]. simpl.
    by do 2 apply typed_unique_merge_typed.
  - done.
  - intros l s a b Ha.
    apply elem_of_matching in Ha as (n & Hn & _). simpl in Hn.
    by rewrite lookup_empty in Hn.
  - done.
Qed.

(** X19.  When the texts that they splice are plain names: if at most one
    node has any given label and name, this is still so after [add] and
    after [_update_relationship], whatever the outcome: a typed node is
    never created twice. *)
Theorem writing_keeps_typed_unique (self : memory_graph) (data s t r : string)
    (w : @world F C) :
  plain_answers llm →
  symbolic_name (normalize r) = true →
  typed_unique (graph w) →
  typed_unique (graph (add (H := C) self data w).2)
  ∧ typed_unique (graph (_update_relationship (H := C) s t r w).2).
Proof.
  intros Hllm Hr Hw.
  assert (∀ s t r, symbolic_name (normalize r) = true →
            keeps (H := C) typed_unique (_update_relationship s t r)) as Hu.
  { intros s' t' r' Hr'. apply keeps_update_plain; [done|].
    intros q g _. apply typed_unique_statement. }
  split; [|by apply Hu].
  apply (keeps_add_plain typed_unique); [done|exact Hu| |done].
  intros st dt ty s' d se de g.
  apply (typed_unique_statement (MergeTriple st dt ty s' d se de)).
Qed.

(** X20.  On the reference store a replacement returns normally whenever
    the normalised relationship is accepted as a relationship type: the
    nodes exist after the first statement, so the creation returns a row
    and the explicit failure does not occur. *)
Theorem update_relationship_total (source target relationship : string)
    (w : @world F C) :
  symbolic_name (normalize relationship) = true →
  ∃ w', _update_relationship (H := C) source target relationship w = (Ok tt, w')
        ∧ extends (graph w) (graph w').
Proof.
  intros Hname.
  destruct (update_relationship_returns similar spliced embed_text llm prompt
              update_messages ranking source target relationship w Hname)
    as [w' Hw'].
  exists w'. split; [done|].
  assert (keeps (H := C) (extends (graph w))
            (_update_relationship source target relationship)) as Hk.
  { apply keeps_update_plain; [done|]. intros q g. apply extends_step. }
  specialize (Hk w (extends_refl _)). by rewrite Hw' in Hk.
Qed.

End StoreMore.

(** ** Runs on concrete inputs *)

Section MoreRuns.
Import Metadata Flat Text Graph Neo4j Scenario Invariants Cases.

(** The scripted model answers the reconciliation request with its
    script, whose calls are checked one by one. *)
Local Ltac plain_script :=
  let messages := fresh "messages" in
  let calls := fresh "calls" in
  let Hcalls := fresh "Hcalls" in
  intros messages calls Hcalls; simpl in Hcalls; injection Hcalls as <-;
  apply (bool_decide_unpack _); vm_compute; exact I.

(** The keys of the merge of the two samples. *)
Lemma merge_metadata_dict_keys_witness :
  NoDup (okeys (Some sample_right))
  ∧ (∀ m, merge_metadata_dict (Some sample_left) (Some sample_right) = Ok m →
          okeys m = ["a"; "n"; "only_left"; "only_right"]).
Proof.
  assert (NoDup (okeys (Some sample_right))) as Hnd.
  { apply (bool_decide_unpack _). vm_compute. exact I. }
  split; [exact Hnd|]. intros m Hm.
  rewrite (merge_metadata_dict_keys (Some sample_left) (Some sample_right) m
             Hnd Hm).
  by vm_compute.
Defined.

(** The samples merge: their shared keys hold two strings and two
    dictionaries. *)
Lemma merge_metadata_dict_succeeds_witness :
  ∃ m, merge_metadata_dict (Some sample_left) (Some sample_right) = Ok m.
Proof.
  apply (merge_metadata_dict_succeeds (Some sample_left) (Some sample_right)).
  { apply (bool_decide_unpack _). vm_compute. exact I. }
  intros k a b Ha Hb. simpl in Ha, Hb.
  repeat (destruct (decide _) in Ha, Hb; simplify_eq;
          try (left; by eexists _, _);
          try (right; eexists _, _, _; repeat split; by vm_compute)).
Defined.

(** [{"k": {}}] merged with itself, then with [{"k": {"n": 1}}]. *)
Lemma merge_metadata_dict_empty_nested_witness :
  olookup "k" (Some (DCons "k" PNone DNil)) = Some PNone
  ∧ (∀ next d, NoDup (okeys next) → olookup "k" next = Some (PDict d) →
       ∃ msg, merge_metadata_dict (Some (DCons "k" PNone DNil)) next
              = Raise (ValueError msg)).
Proof.
  apply (merge_metadata_dict_empty_nested (Some empty_under_k) (Some empty_under_k)
           (Some (DCons "k" PNone DNil)) "k").
  - apply (bool_decide_unpack _). vm_compute. exact I.
  - reflexivity.
  - reflexivity.
  - reflexivity.
Defined.

(** The three dictionaries of notes. *)
Lemma merge_metadata_dict_assoc_witness :
  ∃ ab bc r,
    merge_metadata_dict (Some notes_a) (Some notes_b) = Ok ab
    ∧ merge_metadata_dict (Some notes_b) (Some notes_c) = Ok bc
    ∧ merge_metadata_dict ab (Some notes_c) = Ok r
    ∧ merge_metadata_dict (Some notes_a) bc = Ok r.
Proof.
  apply (merge_metadata_dict_assoc (Some notes_a) (Some notes_b) (Some notes_c));
    try reflexivity; apply (bool_decide_unpack _); vm_compute; exact I.
Defined.


(** [add] on the stub for a memory without [user_id]. *)
Lemma add_without_user_id_witness :
  add (H := stub []) nobody "Alice lives in Paris" (start (C := stub []) tt)
  = (Raise (TypeError "replace() argument 2 must be str, not None"),
     start (C := stub []) tt).
Proof.
  apply (add_without_user_id (H := stub []) nobody "Alice lives in Paris"
           (start (C := stub []) tt) [] (start (C := stub []) tt)).
  - reflexivity.
  - apply outcome_eta. vm_compute. reflexivity.
Defined.


(** The name of a city. *)
Lemma normalize_idempotent_witness :
  is_ascii (normalize "New York") = true
  ∧ normalize (normalize "New York") = normalize "New York"
  ∧ Forall (fun c => c ≠ " "%char ∧ is_upper c = false)
      (chars (normalize "New York")).
Proof. apply (normalize_idempotent "New York"). reflexivity. Defined.

(** The connection is lost when the creation is sent: alice's relationship
    to paris is deleted, and none is created. *)
Lemma update_relationship_failed_creation_witness :
  ∃ line,
    _update_relationship (H := dropping) "alice" "paris" "visited"
      (start (C := dropping) paris_graph)
    = (Raise (StoreError "ServiceUnavailable"),
       Build_world (H := dropping)
         (delete_between "alice" "paris"
            (merge_bare "paris" (merge_bare "alice" paris_graph)))
         (log (start (C := dropping) paris_graph) ++ [line])).
Proof.
  apply (update_relationship_failed_creation (H := dropping)
           "alice" "paris" "visited" (start (C := dropping) paris_graph)
           (merge_bare "paris" (merge_bare "alice" paris_graph)) []
           (delete_between "alice" "paris"
              (merge_bare "paris" (merge_bare "alice" paris_graph))) []
           (StoreError "ServiceUnavailable")); reflexivity.
Defined.

(** The question about Alice on [paris_graph]. *)
Lemma search_returns_witness :
  ∃ res,
    search (H := asked) alice question (start (C := asked) paris_graph)
    = (Ok res, {| graph := graph found_world;
                  log := log found_world ++ [returned_msg (length res)] |})
    ∧ length res = 5 `min` length found_rows.
Proof.
  apply (search_returns (H := asked) alice question (start (C := asked) paris_graph)
           found_rows found_world).
  - apply outcome_eta. vm_compute. reflexivity.
  - intros E. apply (f_equal length) in E. vm_compute in E. discriminate E.
  - apply (proj1 (Forall_forall
             (fun item : row Z =>
                is_Some (item !! "source") ∧ is_Some (item !! "relation")
                ∧ is_Some (item !! "destination")) found_rows)).
    apply (bool_decide_unpack _). vm_compute. exact I.
  - intros corpus tokens. apply reverse_Permutation.
Defined.

(** [add] with the restated fact and a replacement, on [paris_graph]. *)
Lemma writing_keeps_nodes_witness :
  extends (graph restating_world)
    (graph (add (H := neo4j [] restated) alice "Alice lives in Paris"
              restating_world).2)
  ∧ extends (graph restating_world)
      (graph (_update_relationship (H := neo4j [] restated)
                "alice" "paris" "Visited" restating_world).2).
Proof.
  apply (writing_keeps_nodes every_rel refused
           (fun s => Ok [Z.of_nat (String.length s)]) (scripted_llm [] restated)
           "Extract the entities of USER_ID. CUSTOM_PROMPT" (fun _ _ => [])
           tied
           alice "Alice lives in Paris" "alice" "paris" "Visited" restating_world).
  - plain_script.
  - reflexivity.
Defined.

(** Replacing alice's relationship to paris leaves bob's. *)
Lemma update_relationship_frame_witness :
  types_between (graph visited_world) 2 1 = types_between (graph paris_world) 2 1.
Proof.
  apply (update_relationship_frame every_rel refused
           (fun s => Ok [Z.of_nat (String.length s)]) (scripted_llm [] [])
           "Extract the entities of USER_ID. CUSTOM_PROMPT" (fun _ _ => [])
           tied
           "alice" "paris" "Visited" paris_world 2 1).
  - reflexivity.
  - intros [(n & Hn & Hname) _]. vm_compute in Hn. injection Hn as <-.
    discriminate Hname.
Defined.

(** The replacement of alice's relationship to paris. *)
Lemma replaced_is_listed_witness :
  ∃ w' entries w'',
    _update_relationship (H := neo4j [] []) "alice" "paris" "Visited" paris_world
    = (Ok tt, w')
    ∧ get_all (H := neo4j [] []) w' = (Ok entries, w'')
    ∧ triple_entry "alice" (normalize "Visited") "paris" ∈ entries.
Proof.
  apply (replaced_is_listed every_rel refused
           (fun s => Ok [Z.of_nat (String.length s)]) (scripted_llm [] [])
           "Extract the entities of USER_ID. CUSTOM_PROMPT" (fun _ _ => [])
           tied
           "alice" "paris" "Visited" paris_world).
  reflexivity.
Defined.


Lemma writing_keeps_simple_witness :
  simple (graph (add (H := neo4j [] restated) alice "Alice lives in Paris"
                   restating_world).2)
  ∧ simple (graph (_update_relationship (H := neo4j [] restated)
                     "alice" "paris" "Visited" restating_world).2).
Proof.
  apply (writing_keeps_simple every_rel refused
           (fun s => Ok [Z.of_nat (String.length s)]) (scripted_llm [] restated)
           "Extract the entities of USER_ID. CUSTOM_PROMPT" (fun _ _ => [])
           tied
           alice "Alice lives in Paris" "alice" "paris" "Visited" restating_world).
  - plain_script.
  - reflexivity.
  - apply (bool_decide_unpack _). vm_compute. exact I.
Defined.


Lemma writing_keeps_typed_unique_witness :
  typed_unique (graph restated_world)
  ∧ typed_unique (graph (_update_relationship (H := neo4j [] restated)
                           "alice" "paris" "Visited"
                           (start (C := neo4j [] restated) empty_graph)).2).
Proof.
  apply (writing_keeps_typed_unique every_rel refused
           (fun s => Ok [Z.of_nat (String.length s)]) (scripted_llm [] restated)
           "Extract the entities of USER_ID. CUSTOM_PROMPT" (fun _ _ => [])
           tied
           alice "Alice lives in Paris" "alice" "paris" "Visited"
           (start (C := neo4j [] restated) empty_graph)).
  - plain_script.
  - reflexivity.
  - intros l s a b Ha. apply elem_of_matching in Ha as (n & Hn & _).
    simpl in Hn. by rewrite lookup_empty in Hn.
Defined.

Lemma update_relationship_total_witness :
  ∃ w', _update_relationship (H := neo4j [] []) "alice" "paris" "Lives In" paris_world
        = (Ok tt, w')
        ∧ extends (graph paris_world) (graph w').
Proof.
  apply (update_relationship_total every_rel refused
           (fun s => Ok [Z.of_nat (String.length s)]) (scripted_llm [] [])
           "Extract the entities of USER_ID. CUSTOM_PROMPT" (fun _ _ => [])
           tied
           "alice" "paris" "Lives In" paris_world).
  reflexivity.
Defined.

End MoreRuns.
